(** * dinoclib.dfir_orc: rebuilding a file tree from a DFIR-Orc archive

    A shallow embedding of [src/dinoclib/dfir_orc.py].  Python strings and
    byte buffers are [string]s, [pathlib.Path] values are their [parts],
    dictionaries are [gmap]s, the file system is a finite map from paths to
    nodes, and an exception is an explicit outcome. *)

From Stdlib Require Import String Ascii List Bool Arith Lia.
From stdpp Require Import base option gmap strings list fin_maps.

#[local] Set Warnings "-register-all".

Import ListNotations.
Local Open Scope string_scope.

(** ** Python string operations *)

Module PyStr.

(** [s[n:]] *)
Fixpoint drop (n : nat) (s : string) : string :=
  match n, s with
  | O, _ => s
  | S _, EmptyString => EmptyString
  | S k, String _ t => drop k t
  end.

(** [s[:n]] for a non-negative [n] *)
Fixpoint take (n : nat) (s : string) : string :=
  match n, s with
  | O, _ => EmptyString
  | S _, EmptyString => EmptyString
  | S k, String c t => String c (take k t)
  end.

(** [s[:-n]] for a positive [n]: everything but the last [n] characters,
    the empty string when [s] is shorter than that. *)
Definition drop_last (n : nat) (s : string) : string :=
  take (String.length s - n) s.

(** [s.startswith(p)] *)
Fixpoint startswith (p s : string) : bool :=
  match p, s with
  | EmptyString, _ => true
  | String _ _, EmptyString => false
  | String a p', String b s' => if Ascii.eqb a b then startswith p' s' else false
  end.

(** [s.endswith(p)] *)
Definition endswith (p s : string) : bool :=
  if Nat.ltb (String.length s) (String.length p) then false
  else String.eqb (drop (String.length s - String.length p) s) p.

(** [s.replace(old, new)] for a non-empty [old]: the leftmost occurrences,
    not overlapping.  [skip] counts the characters of an occurrence that was
    just replaced and are still to be passed over. *)
Fixpoint replace_from (old new : string) (skip : nat) (s : string) : string :=
  match s with
  | EmptyString => EmptyString
  | String c t =>
      match skip with
      | S k => replace_from old new k t
      | O =>
          if startswith old s
          then new ++ replace_from old new (String.length old - 1) t
          else String c (replace_from old new 0 t)
      end
  end.

(** With an empty [old] Python puts [new] before every character and at the
    end. *)
Fixpoint intersperse_all (new s : string) : string :=
  match s with
  | EmptyString => new
  | String c t => new ++ String c (intersperse_all new t)
  end.

Definition replace (old new s : string) : string :=
  match old with
  | EmptyString => intersperse_all new s
  | String _ _ => replace_from old new 0 s
  end.

(** [s.replace(a, b)] for two characters is a translation. *)
Fixpoint translate (a b : ascii) (s : string) : string :=
  match s with
  | EmptyString => EmptyString
  | String c t => String (if Ascii.eqb a c then b else c) (translate a b t)
  end.

(** [s.split(sep)] on a single character: [cur] is the field being read,
    kept reversed. *)
Fixpoint split_from (sep : ascii) (cur : string) (s : string) : list string :=
  match s with
  | EmptyString => [String.rev cur]
  | String c t =>
      if Ascii.eqb c sep then String.rev cur :: split_from sep EmptyString t
      else split_from sep (String c cur) t
  end.

Definition split (sep : ascii) (s : string) : list string :=
  split_from sep EmptyString s.

End PyStr.

(** ** [pathlib] (the POSIX flavour)

    A path is the list of its [parts]; an absolute path starts with its root,
    ["/"] or ["//"]. *)

Module PyPath.

Abbreviation path := (list string).

Definition is_root (s : string) : bool :=
  String.eqb s "/" || String.eqb s "//".

Definition is_absolute (p : path) : bool :=
  match p with
  | r :: _ => is_root r
  | [] => false
  end.

(** The root of one segment: exactly two leading slashes are kept, one or
    three and more are a single slash. *)
Definition root_of (s : string) : option string :=
  if PyStr.startswith "///" s then Some "/"
  else if PyStr.startswith "//" s then Some "//"
  else if PyStr.startswith "/" s then Some "/"
  else None.

Definition keep_component (c : string) : bool :=
  negb (String.eqb c "") && negb (String.eqb c ".").

(** The parts of a single string segment: empty components and ["."] are
    dropped. *)
Definition parse (s : string) : path :=
  let comps := filter (fun c => Is_true (keep_component c)) (PyStr.split "/" s) in
  match root_of s with
  | Some r => r :: comps
  | None => comps
  end.

(** [p / q], [p.joinpath(q)] on parsed paths: an absolute right operand
    discards the left one. *)
Definition join (p q : path) : path :=
  if is_absolute q then q else (p ++ q)%list.

(** [pathlib.Path(a, b)] *)
Definition Path2 (a b : string) : path := join (parse a) (parse b).

(** [p.joinpath(s)] for a string [s] *)
Definition joinpath (p : path) (s : string) : path := join p (parse s).

(** [p.joinpath(a, b)] *)
Definition joinpath2 (p : path) (a b : string) : path :=
  join (join p (parse a)) (parse b).

(** [p.parent]: the root and the empty path are their own parents. *)
Definition parent (p : path) : path :=
  match p with
  | [] => []
  | [r] => if is_root r then [r] else []
  | _ => removelast p
  end.

(** [p.name]: the last part, empty for a root and for the empty path. *)
Definition name (p : path) : string :=
  match p with
  | [] => ""
  | [r] => if is_root r then "" else r
  | _ => List.last p ""
  end.

(** [p.stem] of a name: the name without its last suffix.  [extract] does
    not call it; it is what "the name without extension" means. *)
Fixpoint rfind (c : ascii) (s : string) : option nat :=
  match s with
  | EmptyString => None
  | String a t =>
      match rfind c t with
      | Some i => Some (S i)
      | None => if Ascii.eqb a c then Some 0 else None
      end
  end.

Definition stem (name : string) : string :=
  match rfind "." name with
  | Some i =>
      if (0 <? i)%nat && (i <? String.length name - 1)%nat
      then PyStr.take i name else name
  | None => name
  end.

End PyPath.

Export PyPath.

(** ** Outcomes of fallible code *)

Inductive exn : Type :=
| KeyError          (* a row lacks a column *)
| OSError           (* a file-system operation failed *)
| ReaderError.      (* an external reader (7z, csv) raised *)

Inductive outcome (A : Type) : Type :=
| Ret (a : A)
| Raise (e : exn).
Arguments Ret {A} a.
Arguments Raise {A} e.

Definition obind {A B} (o : outcome A) (k : A -> outcome B) : outcome B :=
  match o with
  | Ret a => k a
  | Raise e => Raise e
  end.

Notation "'let!' x ':=' o 'in' k" := (obind o (fun x => k))
  (at level 10, x name, o at level 100, k at level 200).

(** ** The Manifest Parser *)

(** A row of [csv.DictReader]: a dictionary from column names to fields. *)
Abbreviation row := (gmap string string).

(** [row[col]] *)
Definition getitem (r : row) (col : string) : outcome string :=
  match r !! col with
  | Some v => Ret v
  | None => Raise KeyError
  end.

Definition zero_snapshot : string := "{00000000-0000-0000-0000-000000000000}".

Definition _root_folder_name (volume_id snapshot_id : string) : string :=
  if String.eqb snapshot_id zero_snapshot then volume_id
  else volume_id ++ " (vss " ++ snapshot_id ++ ")".

(** The body of the loop of [_parse_getthis] (line 49). *)
Definition parse_getthis_row (result : gmap string path) (r : row)
  : outcome (gmap string path) :=
  let! sample := getitem r "SampleName" in
  let! volume := getitem r "VolumeID" in
  let! snapshot := getitem r "SnapshotID" in
  let! full := getitem r "FullName" in
  Ret (<[PyStr.replace "\" "/" sample :=
           Path2 (_root_folder_name volume snapshot)
                 (PyStr.drop 1 (PyStr.replace "\" "/" full))]> result).

Fixpoint parse_getthis_rows (result : gmap string path) (rows : list row)
  : outcome (gmap string path) :=
  match rows with
  | [] => Ret result
  | r :: rest =>
      let! result' := parse_getthis_row result r in
      parse_getthis_rows result' rest
  end.

(** What a row with its four columns adds to the mapping. *)
Definition row_entry (r : row) : option (string * path) :=
  match r !! "SampleName", r !! "VolumeID", r !! "SnapshotID", r !! "FullName" with
  | Some sample, Some volume, Some snapshot, Some full =>
      Some (PyStr.replace "\" "/" sample,
            Path2 (_root_folder_name volume snapshot)
                  (PyStr.drop 1 (PyStr.replace "\" "/" full)))
  | _, _, _, _ => None
  end.

Definition row_key (r : row) : option string := fst <$> row_entry r.

(** [_parse_getthis], given what [csv.DictReader] makes of the content
    ([None] when the reader itself raises). *)
Definition _parse_getthis (csv_rows : string -> option (list row))
    (getthis_content : string) : outcome (gmap string path) :=
  match csv_rows getthis_content with
  | Some rows => parse_getthis_rows ∅ rows
  | None => Raise ReaderError
  end.

(** ** The file system

    A tree is a finite map from paths to nodes.  The empty path (the current
    directory) and the roots are directories that always exist.  Links,
    devices and permissions are not part of the model, and a path names its
    entry literally: [".."] is a name like any other. *)

Inductive node : Type :=
| File (content : string)
| Dir.

Abbreviation tree := (gmap path node).

Definition is_base (p : path) : bool :=
  match p with
  | [] => true
  | [r] => is_root r
  | _ => false
  end.

Definition stat (fs : tree) (p : path) : option node :=
  if is_base p then Some Dir else fs !! p.

(** [p.is_file()], [p.is_dir()], [p.exists()] *)
Definition is_file (fs : tree) (p : path) : bool :=
  match stat fs p with Some (File _) => true | _ => false end.

Definition is_dir (fs : tree) (p : path) : bool :=
  match stat fs p with Some Dir => true | _ => false end.

Definition exists_ (fs : tree) (p : path) : bool :=
  match stat fs p with Some _ => true | None => false end.

Inductive errno : Type :=
  EEXIST | ENOENT | ENOTDIR | EISDIR | ENOTEMPTY | EBUSY | EINVAL.

(** [os.mkdir(p)] *)
Definition os_mkdir (fs : tree) (p : path) : tree + errno :=
  match stat fs p with
  | Some _ => inr EEXIST
  | None =>
      match stat fs (parent p) with
      | Some Dir => inl (<[p := Dir]> fs)
      | Some (File _) => inr ENOTDIR
      | None => inr ENOENT
      end
  end.

(** [Path.mkdir(parents=True, exist_ok=True)], as [pathlib] writes it:
    [os.mkdir]; on [FileNotFoundError] the parent is made first, then the
    directory itself with [parents=False]; any other error is swallowed
    when the path is a directory.  [fuel] bounds the climb to the parents
    and is the number of parts of the path; the tree that comes with
    [inr] is the one standing when the error is raised. *)
Definition mkdir_exist_ok (fs : tree) (p : path) : tree + tree :=
  match os_mkdir fs p with
  | inl fs' => inl fs'
  | inr _ => if is_dir fs p then inl fs else inr fs
  end.

Fixpoint mkdir_parents (fuel : nat) (fs : tree) (p : path) : tree + tree :=
  match os_mkdir fs p with
  | inl fs' => inl fs'
  | inr ENOENT =>
      if decide (parent p = p) then inr fs
      else
        match fuel with
        | O => inr fs
        | S k =>
            match mkdir_parents k fs (parent p) with
            | inl fs1 =>
                match os_mkdir fs1 p with
                | inl fs2 => inl fs2
                | inr ENOENT => inr fs1
                | inr _ => if is_dir fs1 p then inl fs1 else inr fs1
                end
            | inr fs1 => inr fs1
            end
        end
  | inr _ => if is_dir fs p then inl fs else inr fs
  end.

Definition Path_mkdir (fs : tree) (p : path) : tree + tree :=
  mkdir_parents (length p) fs p.

(** [open(p, 'wb')] followed by one [write] and the close: the file is
    created or truncated.  It fails on a directory and when the parent is
    not a directory. *)
Definition open_wb (fs : tree) (p : path) (content : string) : option tree :=
  match stat fs p with
  | Some Dir => None
  | _ =>
      if is_dir fs (parent p) then Some (<[p := File content]> fs) else None
  end.

(** [open(p, 'a')]: the file is created empty when it is missing. *)
Definition open_a (fs : tree) (p : path) : option tree :=
  match stat fs p with
  | Some Dir => None
  | Some (File _) => Some fs
  | None => if is_dir fs (parent p) then Some (<[p := File ""]> fs) else None
  end.

(** A [write] on a file opened for appending.  The line is taken to reach
    the file when it is written; Python keeps it in a buffer until the
    file is closed, which can only change the order of the lines of
    nested archives. *)
Definition append (fs : tree) (p : path) (line : string) : tree :=
  match fs !! p with
  | Some (File old) => <[p := File (old ++ line)]> fs
  | _ => fs
  end.

(** ** [_write_file] *)

Definition _write_file (fs : tree) (file_path : path) (content : string)
  : bool * tree :=
  if is_file fs file_path then (false, fs)
  else
    match Path_mkdir fs (parent file_path) with
    | inr fs1 => (false, fs1)
    | inl fs1 =>
        match open_wb fs1 file_path content with
        | Some fs2 => (true, fs2)
        | None => (false, fs1)
        end
    end.

(** ** [os.rename] and [glob]

    [os.rename] follows POSIX [rename(2)]: a file replaces an existing file,
    a directory replaces an existing empty directory, and the whole subtree
    moves with its root. *)

Fixpoint is_prefix (p q : path) : bool :=
  match p, q with
  | [], _ => true
  | _ :: _, [] => false
  | a :: p', b :: q' => if String.eqb a b then is_prefix p' q' else false
  end.

(** The entries strictly below [p]. *)
Definition below (p k : path) : bool :=
  is_prefix p k && (length p <? length k)%nat.

Definition has_children (fs : tree) (p : path) : bool :=
  existsb (fun kv => below p kv.1) (map_to_list fs).

Definition rekey (src dst : path) (kv : path * node) : path * node :=
  if is_prefix src kv.1
  then ((dst ++ List.skipn (length src) kv.1)%list, kv.2)
  else kv.

Definition move_subtree (fs : tree) (src dst : path) : tree :=
  list_to_map (rekey src dst <$> map_to_list (delete dst fs)).

Definition os_rename (fs : tree) (src dst : path) : tree + errno :=
  if is_base src || is_base dst then inr EBUSY
  else
    match fs !! src with
    | None => inr ENOENT
    | Some n =>
        if decide (src = dst) then inl fs
        else if negb (is_dir fs (parent dst)) then inr ENOENT
        else if is_prefix src dst then inr EINVAL
        else
          match n, fs !! dst with
          | Dir, Some (File _) => inr ENOTDIR
          | Dir, Some Dir =>
              if has_children fs dst then inr ENOTEMPTY
              else inl (move_subtree fs src dst)
          | File _, Some Dir => inr EISDIR
          | _, _ => inl (move_subtree fs src dst)
          end
    end.

(** [p] is reached from [top] through directories only. *)
Fixpoint dirs_between (fs : tree) (top : path) (rest : list string) : bool :=
  match rest with
  | [] => true
  | [_] => true
  | c :: rest' =>
      is_dir fs (top ++ [c])%list && dirs_between fs (top ++ [c])%list rest'
  end.

(** [top.glob('**/' + leaf)], as a list: the entries called [leaf] at any
    depth below [top].  The list is taken from the tree as it stands when
    the loop starts. *)
Definition glob_recursive (fs : tree) (top : path) (leaf : string)
  : list path :=
  List.filter (fun k =>
    below top k && String.eqb (List.last k "") leaf
    && dirs_between fs top (List.skipn (length top) k))
    (map_to_list fs).*1.

(** [top.glob(prefix + '*')]: the entries of [top] whose name starts with
    [prefix], a name without separator or wildcard character. *)
Definition glob_prefix (fs : tree) (top : path) (prefix : string)
  : list path :=
  List.filter (fun k =>
    match List.skipn (length top) k with
    | [n] => is_prefix top k && PyStr.startswith prefix n
    | _ => false
    end)
    (map_to_list fs).*1.

(** ** Loops over a tree that an exception can leave *)

(** [for x in xs: body(x)]: the tree is threaded through the iterations and
    the first exception ends the loop, with the tree as it stands then. *)
Definition for_each {X : Type} (body : tree -> X -> tree * outcome unit)
  : tree -> list X -> tree * outcome unit :=
  fix go (fs : tree) (xs : list X) {struct xs} : tree * outcome unit :=
    match xs with
    | [] => (fs, Ret tt)
    | x :: rest =>
        match body fs x with
        | (fs', Ret _) => go fs' rest
        | (fs', Raise e) => (fs', Raise e)
        end
    end.

(** ** The Volume Renamer *)

Section Renamer.

(** What [csv.DictReader] makes of a text: its rows, or [None] when it
    raises. *)
Variable csv_rows : string -> option (list row).

Variable destination_path : path.

(** Lines 67 to 71: one [dir.rename]. *)
Definition rename_dir (volume_id mount0 : string) (fs : tree) (dir : path)
  : tree * outcome unit :=
  match os_rename fs dir
          (joinpath (parent dir) (PyStr.replace volume_id mount0 (name dir)))
  with
  | inl fs' => (fs', Ret tt)
  | inr _ => (fs, Raise OSError)
  end.

(** Lines 65 and 66: a row with a non-empty mount point renames every
    matching entry of the destination. *)
Definition rename_row (fs : tree) (r : row) : tree * outcome unit :=
  match r !! "MountPoint" with
  | Some (String c _) =>
      match getitem r "VolumeID" with
      | Ret volume_id =>
          for_each (rename_dir volume_id (String c EmptyString)) fs
                   (glob_prefix fs destination_path volume_id)
      | Raise e => (fs, Raise e)
      end
  | _ => (fs, Ret tt)
  end.

(** Lines 60 to 64: one statistics file. *)
Definition rename_file (fs : tree) (volstats_file : path)
  : tree * outcome unit :=
  match fs !! volstats_file with
  | Some (File text) =>
      match csv_rows text with
      | Some rows => for_each rename_row fs rows
      | None => (fs, Raise ReaderError)
      end
  | _ => (fs, Raise OSError)
  end.

Definition _rename_volumes (fs : tree) : tree * outcome unit :=
  for_each rename_file fs (glob_recursive fs destination_path "volstats.csv").

End Renamer.

(** ** The Container Reader, seen from [extract]

    A byte buffer comes with what [py7zr] makes of it: the outcome of
    [SevenZipFile(src)], of [SevenZipFile(src, password=pw)] for every
    password, and of [readall()] on the archive opened. *)

Inductive open_result (B : Type) : Type :=
| Bad7zFile                       (* the constructor raises [Bad7zFile] *)
| OpenError                       (* it raises something else *)
| Opened (needs_password : bool)
         (readall : option (list (string * B))).
                                  (* the members in order, [None]: raises *)
Arguments Bad7zFile {B}.
Arguments OpenError {B}.
Arguments Opened {B} needs_password readall.

Inductive blob : Type :=
| Blob (data : string)
       (open_plain : open_result blob)
       (open_with : string -> open_result blob).

Definition data_of (b : blob) : string :=
  match b with Blob d _ _ => d end.

(** [archive_path]: a path of the file system, with what it holds, or a
    buffer. *)
Inductive source : Type :=
| SrcPath (p : path) (b : blob)
| SrcBuffer (b : blob).

Definition blob_of (s : source) : blob :=
  match s with SrcPath _ b => b | SrcBuffer b => b end.

(** Line 126: the name of the archive is the name of the file for a path,
    the name given by the caller for a buffer. *)
Definition name_of (archive_path : source) (archive_name : string) : string :=
  match archive_path with
  | SrcPath p _ => name p
  | SrcBuffer _ => archive_name
  end.

(** [files[k]] and [k in files.keys()] *)
Fixpoint lookup_member {B : Type} (k : string) (files : list (string * B))
  : option B :=
  match files with
  | [] => None
  | (n, b) :: rest => if String.eqb n k then Some b else lookup_member k rest
  end.

(** [str(p)] *)
Fixpoint join_parts (parts : list string) : string :=
  match parts with
  | [] => ""
  | [c] => c
  | c :: rest => c ++ "/" ++ join_parts rest
  end.

Definition path_str (p : path) : string :=
  match p with
  | [] => "."
  | r :: rest => if is_root r then r ++ join_parts rest else join_parts p
  end.

(** ** The Path Resolver (lines 155 to 169) *)

Inductive destination : Type :=
| WriteTo (final_path : path)
| Nested.

Definition cmd_ouptuts_path (destination_path : path) : path :=
  joinpath2 destination_path "orc_outputs" "commands".

Definition logs_path (destination_path : path) : path :=
  joinpath2 destination_path "orc_outputs" "logs".

Definition script_logs_path (destination_path : path) : path :=
  joinpath destination_path "non_extracted.log".

(** [filename in ['GetThis.csv', 'Statistics.json']] *)
Definition well_known (filename : string) : bool :=
  String.eqb filename "GetThis.csv" || String.eqb filename "Statistics.json".

Definition classify (getthis_mapping : gmap string path)
    (destination_path : path) (archive_name filename : string)
  : destination :=
  match getthis_mapping !! filename with
  | Some mapped => WriteTo (join destination_path mapped)
  | None =>
      if PyStr.endswith ".log" filename
      then WriteTo (joinpath (logs_path destination_path) filename)
      else if well_known filename
      then WriteTo (joinpath (logs_path destination_path)
                             (PyStr.drop_last 3 archive_name ++ "_" ++ filename))
      else if PyStr.endswith ".7z" filename then Nested
      else WriteTo (joinpath (cmd_ouptuts_path destination_path) filename)
  end.

(** Lines 172 and 173: the write and, when it fails, the line of
    [non_extracted.log]. *)
Definition log_line (archive_name filename : string) (final_path : path)
  : string :=
  archive_name ++ "," ++ filename ++ "," ++ path_str final_path
  ++ String (ascii_of_nat 10) "".

Definition write_member (destination_path : path) (archive_name : string)
    (fs : tree) (filename : string) (final_path : path) (content : string)
  : tree :=
  match _write_file fs final_path content with
  | (true, fs') => fs'
  | (false, fs') =>
      append fs' (script_logs_path destination_path)
             (log_line archive_name filename final_path)
  end.

(** ** The Tree Extractor *)

Section Extract.

Variable csv_rows : string -> option (list row).

Variable destination_path : path.
Variable default_password : string.

(** Lines 131 to 142 on their own: open the archive, reopen it with the
    password when it asks for one, read all the members.  [Ret None] stands
    for the [return False] of line 139.  [extract_from] repeats these cases
    in its own body, where the recursion needs them, and
    [extract_from_unfold] shows that it is this function followed by
    [extract_members]. *)
Definition open_archive (b : blob)
  : outcome (option (list (string * blob))) :=
  match b with
  | Blob _ open_plain open_with =>
      match open_plain with
      | Bad7zFile => Ret None
      | OpenError => Raise ReaderError
      | Opened false readall =>
          match readall with
          | Some files => Ret (Some files)
          | None => Raise ReaderError
          end
      | Opened true _ =>
          match open_with default_password with
          | Bad7zFile => Ret None
          | OpenError => Raise ReaderError
          | Opened _ readall =>
              match readall with
              | Some files => Ret (Some files)
              | None => Raise ReaderError
              end
          end
      end
  end.

(** Lines 144 and 145: the failure log is opened for appending. *)
Definition open_script_log (fs : tree) : tree * outcome unit :=
  match Path_mkdir fs (parent (script_logs_path destination_path)) with
  | inr fs1 => (fs1, Raise OSError)
  | inl fs1 =>
      match open_a fs1 (script_logs_path destination_path) with
      | Some fs2 => (fs2, Ret tt)
      | None => (fs1, Raise OSError)
      end
  end.

(** Lines 148 and 149. *)
Definition manifest_of (files : list (string * blob))
  : outcome (gmap string path) :=
  match lookup_member "GetThis.csv" files with
  | Some b => _parse_getthis csv_rows (data_of b)
  | None => Ret ∅
  end.

(** Lines 179 to 183. *)
Definition finish (rename_volumes : bool) (fs : tree) : tree * outcome bool :=
  if rename_volumes then
    match _rename_volumes csv_rows destination_path fs with
    | (fs', Ret _) => (fs', Ret true)
    | (fs', Raise e) => (fs', Raise e)
    end
  else (fs, Ret true).

(** Lines 151 to 174, one member: [extract_rec] is [extract] itself, for
    the call of line 165, whose result is dropped. *)
Definition member_step
    (extract_rec : blob -> string -> bool -> tree -> tree * outcome bool)
    (getthis_mapping : gmap string path) (archive_name : string)
    (fs : tree) (member : string * blob) : tree * outcome unit :=
  match classify getthis_mapping destination_path archive_name member.1 with
  | Nested =>
      match extract_rec member.2 member.1 false fs with
      | (fs', Ret _) => (fs', Ret tt)
      | (fs', Raise e) => (fs', Raise e)
      end
  | WriteTo final_path =>
      (write_member destination_path archive_name fs
         member.1 final_path (data_of member.2), Ret tt)
  end.

(** Lines 144 to 183, once the members are read. *)
Definition extract_members
    (extract_rec : blob -> string -> bool -> tree -> tree * outcome bool)
    (files : list (string * blob)) (archive_name : string)
    (rename_volumes : bool) (fs : tree) : tree * outcome bool :=
  match open_script_log fs with
  | (fs1, Raise e) => (fs1, Raise e)
  | (fs1, Ret _) =>
      match manifest_of files with
      | Raise e => (fs1, Raise e)
      | Ret getthis_mapping =>
          match
            for_each (member_step extract_rec getthis_mapping archive_name)
                     fs1 files
          with
          | (fs2, Ret _) => finish rename_volumes fs2
          | (fs2, Raise e) => (fs2, Raise e)
          end
      end
  end.

(** [extract] on a buffer whose name is known.  The recursion is on the
    nesting of the containers: the call of line 165 is on a member of the
    archive being read. *)
Fixpoint extract_from (b : blob) (archive_name : string)
    (rename_volumes : bool) (fs : tree) {struct b} : tree * outcome bool :=
  match b with
  | Blob _ open_plain open_with =>
      let members files :=
        extract_members extract_from files archive_name rename_volumes fs in
      match open_plain with
      | Bad7zFile => (fs, Ret false)
      | OpenError => (fs, Raise ReaderError)
      | Opened false readall =>
          match readall with
          | Some files => members files
          | None => (fs, Raise ReaderError)
          end
      | Opened true _ =>
          match open_with default_password with
          | Bad7zFile => (fs, Ret false)
          | OpenError => (fs, Raise ReaderError)
          | Opened _ readall =>
              match readall with
              | Some files => members files
              | None => (fs, Raise ReaderError)
              end
          end
      end
  end.

(** [extract]: line 126 picks the name of the archive. *)
Definition extract (archive_path : source) (rename_volumes : bool)
    (archive_name : string) (fs : tree) : tree * outcome bool :=
  extract_from (blob_of archive_path) (name_of archive_path archive_name)
    rename_volumes fs.

End Extract.

Arguments extract_from csv_rows destination_path default_password !b
  archive_name rename_volumes fs /.

(** ** Concrete inputs *)

Module Examples.

Definition LF : string := String (ascii_of_nat 10) "".

(** [csv.DictReader] on a text without quotes: the first line names the
    columns, every other non-empty line is a row; a short row lacks the
    last columns. *)
Fixpoint zip_row (header fields : list string) : row :=
  match header, fields with
  | h :: hs, f :: fs => <[h := f]> (zip_row hs fs)
  | _, _ => ∅
  end.

Definition simple_csv (text : string) : option (list row) :=
  match PyStr.split (ascii_of_nat 10) text with
  | [] => Some []
  | header :: lines =>
      Some ((fun l => zip_row (PyStr.split "," header) (PyStr.split "," l))
              <$> List.filter (fun l => negb (String.eqb l "")) lines)
  end.

(** A buffer that is no archive. *)
Definition plain (d : string) : blob :=
  Blob d Bad7zFile (fun _ => Bad7zFile).

(** An archive without password. *)
Definition archive (files : list (string * blob)) : blob :=
  Blob "7z" (Opened false (Some files)) (fun _ => Opened false (Some files)).

Definition getthis_text : string :=
  "SampleName,VolumeID,SnapshotID,FullName" ++ LF ++
  "sample1,V1,{00000000-0000-0000-0000-000000000000},\Users\a.txt" ++ LF.

Definition scenario : blob :=
  archive [("GetThis.csv", plain getthis_text); ("sample1", plain "hello")].

Definition out : path := ["out"].

(** The row of the scenario. *)
Definition scenario_row : row :=
  <["SampleName" := "sample1"]>
  (<["VolumeID" := "V1"]>
  (<["SnapshotID" := zero_snapshot]>
  (<["FullName" := "\Users\a.txt"]> ∅))).

(** Two rows with one sample name. *)
Definition duplicate_text : string :=
  "SampleName,VolumeID,SnapshotID,FullName" ++ LF ++
  "s,V1,{00000000-0000-0000-0000-000000000000},\a" ++ LF ++
  "s,V2,{1},\b\c" ++ LF.

Definition duplicate_rows : list row :=
  [ <["SampleName" := "s"]> (<["VolumeID" := "V1"]>
      (<["SnapshotID" := zero_snapshot]> (<["FullName" := "\a"]> ∅)));
    <["SampleName" := "s"]> (<["VolumeID" := "V2"]>
      (<["SnapshotID" := "{1}"]> (<["FullName" := "\b\c"]> ∅))) ].


(** A destination with two volumes, a snapshot and their statistics. *)
Definition volstats_text : string :=
  "VolumeID,MountPoint" ++ LF ++ "V1,C:" ++ LF ++ "V2,D:" ++ LF.

Definition rename_tree : tree :=
  list_to_map
    [ (["out"], Dir);
      (["out"; "V1"], Dir); (["out"; "V1"; "a"], File "1");
      (["out"; "V1 (vss S1)"], Dir); (["out"; "V1 (vss S1)"; "a"], File "0");
      (["out"; "V2"], Dir); (["out"; "V2"; "b"], File "2");
      (["out"; "orc_outputs"], Dir);
      (["out"; "orc_outputs"; "commands"], Dir);
      (["out"; "orc_outputs"; "commands"; "volstats.csv"], File volstats_text) ].

(** The same with a folder [C] that is not empty. *)
Definition occupied_tree : tree :=
  <[ ["out"; "C"; "old"] := File "x" ]> (<[ ["out"; "C"] := Dir ]> rename_tree).

(** A destination where the log is open and [V1/Users/a.txt] exists. *)
Definition collision_tree : tree :=
  list_to_map
    [ (["out"], Dir); (["out"; "non_extracted.log"], File "");
      (["out"; "V1"], Dir); (["out"; "V1"; "Users"], Dir);
      (["out"; "V1"; "Users"; "a.txt"], File "old") ].

(** The scenario with the statistics of its volume. *)
Definition volumes_archive : blob :=
  archive [("GetThis.csv", plain getthis_text); ("sample1", plain "hello");
           ("volstats.csv", plain volstats_text)].

(** An archive with a member that is no container, on a tree where the
    other member is already there. *)
Definition broken_archive : blob :=
  archive [("a.txt", plain "new"); ("bad.7z", plain "junk")].

Definition taken_tree : tree :=
  list_to_map
    [ (["out"], Dir); (["out"; "orc_outputs"], Dir);
      (["out"; "orc_outputs"; "commands"], Dir);
      (["out"; "orc_outputs"; "commands"; "a.txt"], File "old") ].

(** A manifest without the column [FullName]. *)
Definition bad_manifest_text : string :=
  "SampleName,VolumeID,SnapshotID" ++ LF ++ "s,V1,{0}" ++ LF.

Definition bad_manifest_archive : blob :=
  archive [("GetThis.csv", plain bad_manifest_text); ("s", plain "x")].

(** A manifest whose sample name holds a backslash. *)
Definition backslash_text : string :=
  "SampleName,VolumeID,SnapshotID,FullName" ++ LF ++
  "dir\sample1,V1,{00000000-0000-0000-0000-000000000000},\Users\a.txt" ++ LF.

(** Statistics without mount point. *)
Definition unmounted_text : string :=
  "VolumeID,MountPoint" ++ LF ++ "V1," ++ LF.

Definition unmounted_tree : tree :=
  list_to_map
    [ (["out"], Dir); (["out"; "V1"], Dir);
      (["out"; "volstats.csv"], File unmounted_text) ].

(** Statistics with a mount point and no volume. *)
Definition novolume_text : string := "MountPoint" ++ LF ++ "C:" ++ LF.

Definition novolume_tree : tree :=
  list_to_map [ (["out"], Dir); (["out"; "volstats.csv"], File novolume_text) ].

(** A destination where [non_extracted.log] is a directory, and one where
    it is open and empty. *)
Definition logdir_tree : tree :=
  list_to_map [ (["out"], Dir); (["out"; "non_extracted.log"], Dir) ].

Definition logged_tree : tree :=
  list_to_map [ (["out"], Dir); (["out"; "non_extracted.log"], File "") ].

(** A sample whose pseudonym ends with the container extension. *)
Definition getthis_7z_text : string :=
  "SampleName,VolumeID,SnapshotID,FullName" ++ LF ++
  "inner.7z,V1,{00000000-0000-0000-0000-000000000000},\Users\b.7z" ++ LF.

Definition mapped_container : blob :=
  archive [("GetThis.csv", plain getthis_7z_text);
           ("inner.7z", archive [("x", plain "y")])].

End Examples.

Import Examples.

(** * Notions for the statements *)

(** The last character. *)
Fixpoint last_char (s : string) : option ascii :=
  match s with
  | EmptyString => None
  | String c EmptyString => Some c
  | String _ t => last_char t
  end.

(** [c in s] for a character. *)
Fixpoint contains (c : ascii) (s : string) : bool :=
  match s with
  | EmptyString => false
  | String a t => Ascii.eqb a c || contains c t
  end.

(** [old in s] *)
Fixpoint occurs (old s : string) : bool :=
  PyStr.startswith old s
  || match s with
     | EmptyString => false
     | String _ t => occurs old t
     end.

(** ** Trees *)

(** Growth: every entry stays as it is, and the entries that are new are
    directories. *)
Definition grows (fs fs' : tree) : Prop :=
  forall q, fs' !! q = fs !! q \/ (fs !! q = None /\ fs' !! q = Some Dir).

(** A tree is well formed when every entry sits in a directory. *)
Definition wf (fs : tree) : Prop :=
  forall p n, fs !! p = Some n -> is_dir fs (parent p) = true.

(** The kind of every entry persists: a directory stays a directory and a
    file stays a file, whatever it holds. *)
Definition same_kind (n n' : node) : Prop :=
  match n, n' with
  | Dir, Dir => True
  | File _, File _ => True
  | _, _ => False
  end.

Definition persists (fs fs' : tree) : Prop :=
  forall q n, fs !! q = Some n -> exists n', fs' !! q = Some n' /\ same_kind n n'.

(** Every entry is kept as it is, but for the file [log], which can only
    gain text at its end. *)
Definition keeps (log : path) (fs fs' : tree) : Prop :=
  forall q n, fs !! q = Some n ->
    fs' !! q = Some n
    \/ (q = log /\ exists old extra,
          n = File old /\ fs' !! q = Some (File (old ++ extra))).

(** A row without mount point: the column is missing or empty. *)
Definition no_mount (r : row) : Prop :=
  r !! "MountPoint" = None \/ r !! "MountPoint" = Some "".

(** Where [rekey] sends a key. *)
Definition moved (src dst k : path) : path :=
  if is_prefix src k then (dst ++ List.skipn (length src) k)%list else k.

(** ** Containers *)

(** A property of all the members that an opening gives. *)
Definition open_all (P : blob -> Prop) (o : open_result blob) : Prop :=
  match o with
  | Opened _ (Some files) => Forall (fun m => P m.2) files
  | _ => True
  end.

Section Runs.

Variable csv_rows : string -> option (list row).
Variable destination_path : path.
Variable default_password : string.

(** The log of a run in which no write succeeds: the line of every member
    that is written, in the order of the traversal. *)
Definition member_lines (lines_rec : blob -> string -> string)
    (getthis_mapping : gmap string path) (archive_name : string)
    (member : string * blob) : string :=
  match classify getthis_mapping destination_path archive_name member.1 with
  | Nested => lines_rec member.2 member.1
  | WriteTo final_path => log_line archive_name member.1 final_path
  end.

Definition members_lines (lines_rec : blob -> string -> string)
    (files : list (string * blob)) (archive_name : string) : string :=
  match manifest_of csv_rows files with
  | Ret getthis_mapping =>
      List.fold_right
        (fun member rest =>
           member_lines lines_rec getthis_mapping archive_name member ++ rest)
        "" files
  | Raise _ => ""
  end.

Fixpoint failure_lines (b : blob) (archive_name : string) {struct b} : string :=
  match b with
  | Blob _ open_plain open_with =>
      match open_plain with
      | Opened false (Some files) =>
          members_lines failure_lines files archive_name
      | Opened true _ =>
          match open_with default_password with
          | Opened _ (Some files) =>
              members_lines failure_lines files archive_name
          | _ => ""
          end
      | _ => ""
      end
  end.

(** A run without renaming only adds entries and lines of log. *)
Definition run_grows (b : blob) : Prop :=
  forall archive_name fs fs' o,
    extract_from csv_rows destination_path default_password b archive_name
      false fs = (fs', o) ->
    persists fs fs' /\ (wf fs -> wf fs').

(** After a run that returned, a run on any later tree writes nothing: it
    returns the same and adds its lines to the log. *)
Definition run_again (b : blob) : Prop :=
  forall archive_name fs fs_end r s,
    extract_from csv_rows destination_path default_password b archive_name
      false fs = (fs_end, Ret r) ->
    persists fs_end s -> wf s ->
    extract_from csv_rows destination_path default_password b archive_name
      false s
    = (append s (script_logs_path destination_path)
         (failure_lines b archive_name), Ret r).

(** A run without renaming keeps every entry, the failure log apart. *)
Definition run_keeps (b : blob) : Prop :=
  forall archive_name fs,
    keeps (script_logs_path destination_path) fs
      (extract_from csv_rows destination_path default_password b
         archive_name false fs).1.

(** [n] more runs without renaming. *)
Fixpoint rerun (n : nat) (archive_path : source) (archive_name : string)
    (fs : tree) : tree :=
  match n with
  | O => fs
  | S k =>
      (extract csv_rows destination_path default_password archive_path false
         archive_name
         (rerun k archive_path archive_name fs)).1
  end.

End Runs.

(** * Properties *)

(** ** The shape of [extract] *)

Section ExtractFacts.

Variable csv_rows : string -> option (list row).
Variable destination_path : path.
Variable default_password : string.

Let extract_from' := extract_from csv_rows destination_path default_password.

Lemma extract_from_unfold (b : blob) archive_name rename_volumes fs :
  extract_from' b archive_name rename_volumes fs =
  match open_archive default_password b with
  | Raise e => (fs, Raise e)
  | Ret None => (fs, Ret false)
  | Ret (Some files) =>
      extract_members csv_rows destination_path extract_from' files
        archive_name rename_volumes fs
  end.
Proof.
  destruct b as [d op ow]; unfold extract_from'; simpl.
  destruct op as [| |[|] [files|]]; try reflexivity;
    destruct (ow default_password) as [| |np [files'|]]; reflexivity.
Qed.

End ExtractFacts.


(** ** Strings *)

Section StringFacts.

Implicit Types (s p a : string).

Lemma append_cons c a p : String c a ++ p = String c (a ++ p).
Proof. reflexivity. Qed.

Lemma append_nil p : "" ++ p = p.
Proof. reflexivity. Qed.

Lemma take_drop n s : PyStr.take n s ++ PyStr.drop n s = s.
Proof.
  revert s; induction n as [|n IH]; intros [|c s]; simpl; try reflexivity.
  rewrite append_cons. f_equal. apply IH.
Qed.

Lemma length_append a p : String.length (a ++ p) = String.length a + String.length p.
Proof.
  induction a as [|c a IH]; [reflexivity|].
  rewrite append_cons. simpl. by rewrite IH.
Qed.

Lemma take_app a p : PyStr.take (String.length a) (a ++ p) = a.
Proof.
  induction a as [|c a IH]; [by destruct p|].
  rewrite append_cons. simpl. by rewrite IH.
Qed.

Lemma drop_app a p : PyStr.drop (String.length a) (a ++ p) = p.
Proof. induction a as [|c a IH]; [reflexivity | exact IH]. Qed.

Lemma drop_last_app a p : PyStr.drop_last (String.length p) (a ++ p) = a.
Proof.
  unfold PyStr.drop_last. rewrite length_append.
  replace (String.length a + String.length p - String.length p)
    with (String.length a) by lia.
  apply take_app.
Qed.

Lemma endswith_split p s :
  PyStr.endswith p s = true -> exists a, s = a ++ p.
Proof.
  unfold PyStr.endswith.
  destruct (Nat.ltb (String.length s) (String.length p)); [discriminate|].
  intros H%String.eqb_eq.
  exists (PyStr.take (String.length s - String.length p) s).
  pose proof (take_drop (String.length s - String.length p) s) as E.
  rewrite H in E. symmetry. exact E.
Qed.

Lemma endswith_app a p : PyStr.endswith p (a ++ p) = true.
Proof.
  unfold PyStr.endswith. rewrite length_append.
  destruct (Nat.ltb_spec (String.length a + String.length p) (String.length p));
    [lia|].
  replace (String.length a + String.length p - String.length p)
    with (String.length a) by lia.
  rewrite drop_app. apply String.eqb_refl.
Qed.

Lemma append_assoc (a b c : string) : (a ++ b) ++ c = a ++ (b ++ c).
Proof.
  induction a as [|x a IH]; [reflexivity|].
  rewrite !append_cons. by rewrite IH.
Qed.

Lemma append_nil_r (a : string) : a ++ "" = a.
Proof.
  induction a as [|x a IH]; [reflexivity|].
  rewrite append_cons. by rewrite IH.
Qed.

Lemma last_char_app a p : p <> "" -> last_char (a ++ p) = last_char p.
Proof.
  intros Hp. induction a as [|c a IH]; [reflexivity|].
  rewrite append_cons. simpl. rewrite IH. destruct (a ++ p) eqn:E; [|reflexivity].
  destruct a, p; try discriminate; congruence.
Qed.

Lemma endswith_last_char p s :
  p <> "" -> PyStr.endswith p s = true -> last_char s = last_char p.
Proof. intros Hp [a ->]%endswith_split. by apply last_char_app. Qed.

Lemma endswith_7z_not_log s :
  PyStr.endswith ".7z" s = true -> PyStr.endswith ".log" s = false.
Proof.
  intros H7%endswith_last_char; [|discriminate].
  destruct (PyStr.endswith ".log" s) eqn:Hl; [|reflexivity].
  apply endswith_last_char in Hl; [|discriminate].
  rewrite H7 in Hl. discriminate.
Qed.

Lemma well_known_cases s :
  well_known s = true -> s = "GetThis.csv" \/ s = "Statistics.json".
Proof.
  unfold well_known. intros [H|H]%orb_prop; apply String.eqb_eq in H; auto.
Qed.

Lemma endswith_7z_not_well_known s :
  PyStr.endswith ".7z" s = true -> well_known s = false.
Proof.
  intros H7. destruct (well_known s) eqn:Hw; [|reflexivity].
  apply well_known_cases in Hw as [-> | ->]; vm_compute in H7; discriminate.
Qed.

Lemma well_known_not_log s :
  well_known s = true -> PyStr.endswith ".log" s = false.
Proof. intros [-> | ->]%well_known_cases; reflexivity. Qed.

End StringFacts.

(** ** The file system: what the primitives keep *)

Section TreeFacts.

Implicit Types (fs : tree) (p q : path) (n : node).

Lemma stat_not_base fs p : is_base p = false -> stat fs p = fs !! p.
Proof. unfold stat. intros ->. reflexivity. Qed.

Lemma stat_None fs p : stat fs p = None -> is_base p = false /\ fs !! p = None.
Proof. unfold stat. destruct (is_base p); [discriminate | auto]. Qed.

Lemma stat_file fs p c : stat fs p = Some (File c) -> fs !! p = Some (File c).
Proof. unfold stat. destruct (is_base p); [discriminate | auto]. Qed.

Lemma is_file_lookup fs p :
  is_file fs p = true <-> is_base p = false /\ exists c, fs !! p = Some (File c).
Proof.
  unfold is_file, stat. destruct (is_base p).
  - split; [discriminate | intros [? _]; discriminate].
  - destruct (fs !! p) as [[c|]|]; split; try discriminate; eauto;
      intros [_ [c' ?]]; discriminate.
Qed.

Lemma os_mkdir_inl fs p fs' :
  os_mkdir fs p = inl fs' ->
  fs' = <[p := Dir]> fs /\ is_base p = false /\ fs !! p = None
  /\ is_dir fs (parent p) = true.
Proof.
  unfold os_mkdir, is_dir. destruct (stat fs p) eqn:Hp; [discriminate |].
  apply stat_None in Hp as [Hb Hn].
  destruct (stat fs (parent p)) as [[c|]|]; try discriminate.
  intros [= <-]. auto.
Qed.

Lemma grows_refl fs : grows fs fs.
Proof. intros q. auto. Qed.

Lemma grows_trans fs1 fs2 fs3 : grows fs1 fs2 -> grows fs2 fs3 -> grows fs1 fs3.
Proof.
  intros H12 H23 q. destruct (H12 q) as [E1|[E1 E1']], (H23 q) as [E2|[E2 E2']];
    try (left; congruence); right; split; congruence.
Qed.

Lemma grows_insert_dir fs p : fs !! p = None -> grows fs (<[p := Dir]> fs).
Proof.
  intros Hn q. destruct (decide (p = q)) as [<-|Hne].
  - right. rewrite lookup_insert_eq. auto.
  - left. apply lookup_insert_ne. assumption.
Qed.

Lemma grows_lookup fs fs' q n : grows fs fs' -> fs !! q = Some n -> fs' !! q = Some n.
Proof. intros H Hq. destruct (H q) as [E|[E _]]; congruence. Qed.

Lemma grows_stat fs fs' q n : grows fs fs' -> stat fs q = Some n -> stat fs' q = Some n.
Proof. unfold stat. destruct (is_base q); eauto using grows_lookup. Qed.

Lemma os_mkdir_grows fs p fs' : os_mkdir fs p = inl fs' -> grows fs fs'.
Proof. intros (-> & _ & Hn & _)%os_mkdir_inl. by apply grows_insert_dir. Qed.

Lemma mkdir_parents_grows fuel : forall fs p,
  match mkdir_parents fuel fs p with
  | inl fs' | inr fs' => grows fs fs'
  end.
Proof.
  induction fuel as [|k IH]; intros fs p; simpl;
    destruct (os_mkdir fs p) as [fs'|e] eqn:Hm;
    try (by eapply os_mkdir_grows).
  - destruct e; try (destruct (is_dir fs p); apply grows_refl).
    destruct (decide (parent p = p)); apply grows_refl.
  - destruct e; try (destruct (is_dir fs p); apply grows_refl).
    destruct (decide (parent p = p)); [apply grows_refl|].
    specialize (IH fs (parent p)).
    destruct (mkdir_parents k fs (parent p)) as [fs1|fs1]; [|exact IH].
    destruct (os_mkdir fs1 p) as [fs2|e] eqn:Hm2.
    + eapply grows_trans; [exact IH | by eapply os_mkdir_grows].
    + destruct e; try (destruct (is_dir fs1 p); exact IH); exact IH.
Qed.

Lemma Path_mkdir_grows fs p :
  match Path_mkdir fs p with inl fs' | inr fs' => grows fs fs' end.
Proof. apply mkdir_parents_grows. Qed.

(** What a write changes: nothing, or new directories, or new directories
    and a new file at the destination. *)
Lemma write_file_effect fs p content :
  let r := _write_file fs p content in
  (r.1 = false /\ grows fs r.2)
  \/ (r.1 = true /\ is_base p = false /\ fs !! p = None
      /\ exists fs1, grows fs fs1 /\ fs1 !! p = None
                     /\ r.2 = <[p := File content]> fs1).
Proof.
  unfold _write_file. destruct (is_file fs p) eqn:Hf; simpl.
  { left. split; [reflexivity | apply grows_refl]. }
  pose proof (Path_mkdir_grows fs (parent p)) as Hg.
  destruct (Path_mkdir fs (parent p)) as [fs1|fs1]; simpl; [|left; auto].
  unfold open_wb. destruct (stat fs1 p) as [[c|]|] eqn:Hs; simpl.
  - (* a file at the destination would have been there before *)
    exfalso. apply stat_file in Hs as Hl.
    assert (Hb : is_base p = false).
    { unfold stat in Hs. destruct (is_base p); [discriminate | reflexivity]. }
    destruct (Hg p) as [E|[_ E]]; [|congruence].
    assert (is_file fs p = true); [|congruence].
    apply is_file_lookup. split; [assumption|]. exists c. congruence.
  - left. auto.
  - apply stat_None in Hs as [Hb Hn].
    destruct (is_dir fs1 (parent p)); simpl; [|left; auto].
    right. repeat split; try assumption.
    + destruct (Hg p) as [E|[E _]]; congruence.
    + exists fs1. auto.
Qed.

End TreeFacts.

(** ** [_write_file] never touches what is there *)

Lemma write_file_grows_or_creates (fs : tree) (p : path) (content : string) :
  forall q n, fs !! q = Some n -> (_write_file fs p content).2 !! q = Some n.
Proof.
  intros q n Hq.
  destruct (write_file_effect fs p content) as [[_ Hg]|(_ & _ & Hn & fs1 & Hg & Hn1 & ->)].
  - eauto using grows_lookup.
  - rewrite lookup_insert_ne; [eauto using grows_lookup | congruence].
Qed.

Lemma write_file_on_file (fs : tree) (p : path) (content : string) :
  is_file fs p = true -> _write_file fs p content = (false, fs).
Proof. unfold _write_file. intros ->. reflexivity. Qed.

Lemma write_file_on_dir (fs : tree) (p : path) (content : string) :
  is_dir fs p = true -> (_write_file fs p content).1 = false.
Proof.
  unfold _write_file, is_dir, is_file. intros Hd.
  destruct (stat fs p) as [[c|]|] eqn:Hs; try discriminate.
  pose proof (Path_mkdir_grows fs (parent p)) as Hg.
  destruct (Path_mkdir fs (parent p)) as [fs1|fs1]; [|reflexivity].
  unfold open_wb. erewrite grows_stat by eassumption. reflexivity.
Qed.


(** ** A failed write is logged and the traversal goes on *)

Lemma append_file (fs : tree) (p : path) (old line : string) :
  fs !! p = Some (File old) -> append fs p line = <[p := File (old ++ line)]> fs.
Proof. unfold append. intros ->. reflexivity. Qed.

Lemma write_member_failure (dest : path) (archive_name filename : string)
    (fs : tree) (final_path : path) (content log : string) :
  fs !! script_logs_path dest = Some (File log) ->
  (_write_file fs final_path content).1 = false ->
  write_member dest archive_name fs filename final_path content
  = <[script_logs_path dest :=
        File (log ++ log_line archive_name filename final_path)]>
      (_write_file fs final_path content).2.
Proof.
  intros Hlog Hfail. unfold write_member.
  pose proof (write_file_grows_or_creates fs final_path content _ _ Hlog) as Hl.
  destruct (_write_file fs final_path content) as [ok fs']; simpl in *.
  subst ok. by apply append_file.
Qed.

Lemma write_member_success (dest : path) (archive_name filename : string)
    (fs : tree) (final_path : path) (content : string) :
  (_write_file fs final_path content).1 = true ->
  write_member dest archive_name fs filename final_path content
  = (_write_file fs final_path content).2.
Proof.
  unfold write_member.
  destruct (_write_file fs final_path content) as [ok fs']; simpl.
  intros ->. reflexivity.
Qed.

Lemma write_member_keeps_files (dest : path) (archive_name filename : string)
    (fs : tree) (final_path : path) (content : string) (q : path) (n : node) :
  q <> script_logs_path dest ->
  fs !! q = Some n ->
  write_member dest archive_name fs filename final_path content !! q = Some n.
Proof.
  intros Hq Hn. unfold write_member.
  pose proof (write_file_grows_or_creates fs final_path content _ _ Hn) as Hl.
  destruct (_write_file fs final_path content) as [[|] fs']; simpl in *;
    [assumption|].
  unfold append. destruct (fs' !! script_logs_path dest) as [[old|]|];
    try assumption.
  rewrite lookup_insert_ne; [assumption | congruence].
Qed.



(** ** When the parent directories can be made *)

Lemma parent_prefix (p : path) : parent p `prefix_of` p.
Proof.
  destruct p as [|a [|b p]]; simpl.
  - reflexivity.
  - destruct (is_root a); [reflexivity | apply prefix_nil].
  - exists [List.last (b :: p) ""].
    rewrite (app_removelast_last (l := a :: b :: p) "") at 1 by discriminate.
    reflexivity.
Qed.

Lemma parent_length (p : path) :
  is_base p = false -> S (length (parent p)) = length p.
Proof.
  destruct p as [|a [|b p]]; simpl; try discriminate.
  - intros ->. reflexivity.
  - intros _. pose proof (app_removelast_last (l := b :: p) "") as E.
    assert (Hl : length (b :: p) = S (length (removelast (b :: p)))).
    { rewrite E at 1 by discriminate. rewrite length_app. simpl. lia. }
    simpl in Hl. simpl. lia.
Qed.

Lemma is_dir_insert_dir (fs : tree) (p : path) : is_dir (<[p := Dir]> fs) p = true.
Proof.
  unfold is_dir, stat. destruct (is_base p); [reflexivity|].
  rewrite lookup_insert_eq. reflexivity.
Qed.

Lemma os_mkdir_changes (fs : tree) (p : path) fs' q :
  os_mkdir fs p = inl fs' -> fs' !! q <> fs !! q -> q = p.
Proof.
  intros (-> & _ & _ & _)%os_mkdir_inl Hne.
  destruct (decide (p = q)) as [<-|Hd]; [reflexivity|].
  rewrite lookup_insert_ne in Hne by assumption. congruence.
Qed.

Lemma mkdir_parents_changes (fuel : nat) : forall (fs : tree) (p q : path),
  match mkdir_parents fuel fs p with
  | inl fs' | inr fs' => fs' !! q <> fs !! q -> q `prefix_of` p
  end.
Proof.
  induction fuel as [|k IH]; intros fs p q; simpl;
    destruct (os_mkdir fs p) as [fs'|e] eqn:Hm;
    try (intros Hne; by rewrite (os_mkdir_changes _ _ _ _ Hm Hne)).
  - destruct e; try (destruct (is_dir fs p); congruence).
    destruct (decide (parent p = p)); congruence.
  - destruct e; try (destruct (is_dir fs p); congruence).
    destruct (decide (parent p = p)); [congruence|].
    specialize (IH fs (parent p) q).
    destruct (mkdir_parents k fs (parent p)) as [fs1|fs1].
    2:{ intros Hne. etrans; [by apply IH | apply parent_prefix]. }
    assert (Hup : fs1 !! q <> fs !! q -> q `prefix_of` p).
    { intros Hne. etrans; [by apply IH | apply parent_prefix]. }
    destruct (os_mkdir fs1 p) as [fs2|e] eqn:Hm2.
    + intros Hne. destruct (decide (q = p)) as [->|Hd]; [reflexivity|].
      apply Hup. apply os_mkdir_inl in Hm2 as (-> & _).
      rewrite lookup_insert_ne in Hne by congruence. exact Hne.
    + destruct e; try (destruct (is_dir fs1 p); exact Hup); exact Hup.
Qed.

Lemma mkdir_parents_ok (fuel : nat) : forall (fs : tree) (p : path),
  length p <= fuel ->
  (forall q, q `prefix_of` p -> is_file fs q = false) ->
  exists fs', mkdir_parents fuel fs p = inl fs' /\ is_dir fs' p = true.
Proof.
  induction fuel as [|k IH]; intros fs p Hlen Hfree.
  - destruct p; [|simpl in Hlen; lia]. simpl. exists fs. split; reflexivity.
  - simpl. unfold os_mkdir at 1.
    pose proof (Hfree p ltac:(reflexivity)) as Hp. unfold is_file in Hp.
    destruct (stat fs p) as [[c|]|] eqn:Hs; try discriminate.
    { assert (Hd : is_dir fs p = true) by (unfold is_dir; rewrite Hs; reflexivity).
      simpl. rewrite Hd. eauto. }
    apply stat_None in Hs as Hs'. destruct Hs' as [Hb Hn].
    pose proof (Hfree _ (parent_prefix p)) as Hpp. unfold is_file in Hpp.
    destruct (stat fs (parent p)) as [[c|]|] eqn:Hsp; try discriminate.
    { eexists. split; [reflexivity | apply is_dir_insert_dir]. }
    pose proof (parent_length p Hb) as Hpl.
    destruct (decide (parent p = p)) as [E|_]; [rewrite E in Hpl; lia|].
    pose proof (mkdir_parents_grows k fs (parent p)) as Hg.
    destruct (IH fs (parent p)) as (fs1 & Hm & Hd1); [lia| |].
    { intros q Hq. apply Hfree. etrans; [exact Hq | apply parent_prefix]. }
    rewrite Hm in Hg |- *.
    unfold os_mkdir. unfold stat at 1. rewrite Hb.
    destruct (Hg p) as [E|[_ E]]; rewrite E.
    + rewrite Hn. unfold is_dir in Hd1.
      destruct (stat fs1 (parent p)) as [[c|]|]; try discriminate.
      eexists. split; [reflexivity | apply is_dir_insert_dir].
    + unfold is_dir, stat. rewrite Hb, E. exists fs1. rewrite E. auto.
Qed.

Lemma os_mkdir_enoent (fs : tree) (p : path) :
  os_mkdir fs p = inr ENOENT -> is_base p = false.
Proof.
  unfold os_mkdir. destruct (stat fs p) eqn:Hs; [discriminate|].
  intros _. by apply stat_None in Hs as [Hb _].
Qed.

Lemma mkdir_parents_base (fuel : nat) (fs : tree) :
  mkdir_parents fuel fs [] = inl fs.
Proof. destruct fuel; reflexivity. Qed.

(** The fuel of [Path_mkdir] is enough: more of it changes nothing. *)
Lemma mkdir_parents_fuel (n : nat) : forall (m : nat) (fs : tree) (p : path),
  length p <= n -> length p <= m ->
  mkdir_parents n fs p = mkdir_parents m fs p.
Proof.
  induction n as [|k IH]; intros m fs p Hn Hm.
  - destruct p; [|simpl in Hn; lia]. by rewrite !mkdir_parents_base.
  - destruct m as [|j].
    { destruct p; [|simpl in Hm; lia]. by rewrite !mkdir_parents_base. }
    simpl. destruct (os_mkdir fs p) as [fs'|e] eqn:Hmk; [reflexivity|].
    destruct e; try reflexivity.
    destruct (decide (parent p = p)); [reflexivity|].
    pose proof (parent_length p (os_mkdir_enoent _ _ Hmk)) as Hpl.
    rewrite (IH j fs (parent p)) by lia. reflexivity.
Qed.

Lemma Path_mkdir_fuel (fuel : nat) (fs : tree) (p : path) :
  length p <= fuel -> mkdir_parents fuel fs p = Path_mkdir fs p.
Proof. intros H. by apply mkdir_parents_fuel. Qed.

Lemma prefix_parent_proper (p : path) :
  is_base p = false -> ~ p `prefix_of` parent p.
Proof.
  intros Hb Hp. apply prefix_length in Hp.
  pose proof (parent_length p Hb). lia.
Qed.

(** A write lands when the destination is free and no file stands on the
    way to it. *)
Lemma write_file_lands (fs : tree) (p : path) (content : string) :
  stat fs p = None ->
  (forall q, q `prefix_of` parent p -> is_file fs q = false) ->
  exists fs', _write_file fs p content = (true, fs')
              /\ fs' !! p = Some (File content)
              /\ forall q n, fs !! q = Some n -> fs' !! q = Some n.
Proof.
  intros Hs Hfree. apply stat_None in Hs as Hs'. destruct Hs' as [Hb Hn].
  pose proof (write_file_grows_or_creates fs p content) as Hkeep.
  unfold _write_file in *. unfold is_file in *. rewrite Hs in *.
  destruct (mkdir_parents_ok (length (parent p)) fs (parent p)) as (fs1 & Hm & Hd);
    [lia | exact Hfree |].
  pose proof (mkdir_parents_changes (length (parent p)) fs (parent p) p) as Hc.
  unfold Path_mkdir in *. rewrite Hm in *.
  assert (E : fs1 !! p = None).
  { destruct (decide (fs1 !! p = None)) as [|Hne]; [assumption|].
    exfalso. apply (prefix_parent_proper p Hb). apply Hc. congruence. }
  unfold open_wb in *. unfold stat in *. rewrite Hb, E in *.
  fold (stat fs1 (parent p)) in *. fold (is_dir fs1 (parent p)) in *.
  rewrite Hd in *. simpl in *. eexists. split; [reflexivity|].
  split; [apply lookup_insert_eq | exact Hkeep].
Qed.

(** ** The Path Resolver *)

Section Resolver.

Variable getthis_mapping : gmap string path.
Variable destination_path : path.
Variable archive_name : string.

Lemma classify_mapped filename mapped :
  getthis_mapping !! filename = Some mapped ->
  classify getthis_mapping destination_path archive_name filename
  = WriteTo (join destination_path mapped).
Proof. unfold classify. intros ->. reflexivity. Qed.

Lemma classify_log filename :
  getthis_mapping !! filename = None ->
  PyStr.endswith ".log" filename = true ->
  classify getthis_mapping destination_path archive_name filename
  = WriteTo (joinpath (logs_path destination_path) filename).
Proof. unfold classify. intros -> ->. reflexivity. Qed.

Lemma classify_well_known filename :
  getthis_mapping !! filename = None ->
  PyStr.endswith ".log" filename = false ->
  well_known filename = true ->
  classify getthis_mapping destination_path archive_name filename
  = WriteTo (joinpath (logs_path destination_path)
                      (PyStr.drop_last 3 archive_name ++ "_" ++ filename)).
Proof. unfold classify. intros -> -> ->. reflexivity. Qed.

Lemma classify_nested filename :
  getthis_mapping !! filename = None ->
  PyStr.endswith ".log" filename = false ->
  well_known filename = false ->
  PyStr.endswith ".7z" filename = true ->
  classify getthis_mapping destination_path archive_name filename = Nested.
Proof. unfold classify. intros -> -> -> ->. reflexivity. Qed.

Lemma classify_default filename :
  getthis_mapping !! filename = None ->
  PyStr.endswith ".log" filename = false ->
  well_known filename = false ->
  PyStr.endswith ".7z" filename = false ->
  classify getthis_mapping destination_path archive_name filename
  = WriteTo (joinpath (cmd_ouptuts_path destination_path) filename).
Proof. unfold classify. intros -> -> -> ->. reflexivity. Qed.

End Resolver.

Section Classification.

Variable csv_rows : string -> option (list row).
Variable destination_path : path.
Variable default_password : string.

(** Line 165: the step of a nested container is the recursive call, with its
    result dropped. *)
Lemma member_step_nested extract_rec getthis_mapping archive_name fs filename b :
  classify getthis_mapping destination_path archive_name filename = Nested ->
  member_step destination_path extract_rec getthis_mapping archive_name fs
    (filename, b)
  = let r := extract_rec b filename false fs in
    (r.1, match r.2 with Ret _ => Ret tt | Raise e => Raise e end).
Proof.
  intros Hc. unfold member_step. simpl. rewrite Hc.
  destruct (extract_rec b filename false fs) as [fs' [r|e]]; reflexivity.
Qed.

Lemma member_step_write extract_rec getthis_mapping archive_name fs filename b
    final_path :
  classify getthis_mapping destination_path archive_name filename
    = WriteTo final_path ->
  member_step destination_path extract_rec getthis_mapping archive_name fs
    (filename, b)
  = (write_member destination_path archive_name fs filename final_path
       (data_of b), Ret tt).
Proof. intros Hc. unfold member_step. simpl. rewrite Hc. reflexivity. Qed.


End Classification.


(** ** Nested containers *)

Section NestedContainers.

Variable csv_rows : string -> option (list row).
Variable destination_path : path.
Variable default_password : string.

(** C6, as the code has it.  A member whose name ends in [.7z] and is not a
    key of the manifest is not written: its step is the call of [extract] on
    its content, with the same destination and password, no renaming of the
    volumes and its own name as the name of the archive; the tree after the
    step is the tree after that call. *)
Theorem nested_container_is_recursed
    (getthis_mapping : gmap string path) (archive_name filename : string)
    (Hext : PyStr.endswith ".7z" filename = true)
    (Hkey : getthis_mapping !! filename = None) :
  classify getthis_mapping destination_path archive_name filename = Nested
  /\ forall fs b,
       member_step destination_path
         (extract_from csv_rows destination_path default_password)
         getthis_mapping archive_name fs (filename, b)
       = let r := extract csv_rows destination_path default_password
                    (SrcBuffer b) false filename fs in
         (r.1, match r.2 with Ret _ => Ret tt | Raise e => Raise e end).
Proof.
  assert (Hc : classify getthis_mapping destination_path archive_name filename
               = Nested).
  { apply classify_nested; auto using endswith_7z_not_log,
      endswith_7z_not_well_known. }
  split; [exact Hc|]. intros fs b.
  rewrite (member_step_nested _ _ _ _ _ _ _ Hc). reflexivity.
Qed.

End NestedContainers.

Lemma nested_container_is_recursed_witness :
  classify ∅ out "evidence.7z" "inner.7z" = Nested.
Proof.
  apply (nested_container_is_recursed simple_csv out "" ∅ "evidence.7z"
           "inner.7z"); reflexivity.
Defined.

(** A member whose name ends in [.7z] and is a key of the manifest is
    written at its mapped path, and nothing of its content is extracted. *)
Lemma mapped_container_is_written :
  PyStr.endswith ".7z" "inner.7z" = true
  /\ let fs := (extract simple_csv out "" (SrcPath ["evidence.7z"]
                  mapped_container) true "" ∅).1 in
     fs !! ["out"; "V1"; "Users"; "b.7z"] = Some (File "7z")
     /\ fs !! ["out"; "orc_outputs"; "commands"; "x"] = None.
Proof. vm_compute. auto. Qed.

(** ** The well-known names *)

Section WellKnown.

Variable csv_rows : string -> option (list row).
Variable destination_path : path.
Variable default_password : string.


End WellKnown.



(** ** The Manifest Parser *)

Lemma replace_char (a b : ascii) (s : string) :
  PyStr.replace (String a "") (String b "") s = PyStr.translate a b s.
Proof.
  unfold PyStr.replace. induction s as [|c t IH]; [reflexivity|].
  simpl. destruct (Ascii.eqb a c); simpl; rewrite IH; reflexivity.
Qed.

Section ManifestFacts.

Lemma parse_getthis_row_entry (result : gmap string path) (r : row) k d :
  row_entry r = Some (k, d) ->
  parse_getthis_row result r = Ret (<[k := d]> result).
Proof.
  unfold row_entry, parse_getthis_row, getitem.
  destruct (r !! "SampleName"), (r !! "VolumeID"), (r !! "SnapshotID"),
    (r !! "FullName"); try discriminate.
  intros [= <- <-]. reflexivity.
Qed.

Lemma parse_getthis_rows_app (rows1 rows2 : list row) :
  forall init m1,
    parse_getthis_rows init rows1 = Ret m1 ->
    parse_getthis_rows init (rows1 ++ rows2)%list = parse_getthis_rows m1 rows2.
Proof.
  induction rows1 as [|r rows1 IH]; intros init m1; simpl.
  - intros [= ->]. reflexivity.
  - destruct (parse_getthis_row init r) as [m|e]; simpl; [|discriminate].
    apply IH.
Qed.

Lemma parse_getthis_rows_total (rows : list row) :
  Forall (fun r => is_Some (row_entry r)) rows ->
  forall init, exists m, parse_getthis_rows init rows = Ret m.
Proof.
  induction 1 as [|r rows [[k d] Hr] _ IH]; intros init; simpl; [eauto|].
  rewrite (parse_getthis_row_entry _ _ _ _ Hr). simpl. apply IH.
Qed.

Lemma parse_getthis_rows_other (rows : list row) (k : string) :
  Forall (fun r => row_key r <> Some k) rows ->
  forall init m, parse_getthis_rows init rows = Ret m -> m !! k = init !! k.
Proof.
  induction 1 as [|r rows Hr _ IH]; intros init m; simpl.
  - intros [= ->]. reflexivity.
  - destruct (parse_getthis_row init r) as [m'|e] eqn:Hrow; simpl;
      [|discriminate].
    intros Hm. rewrite (IH _ _ Hm).
    unfold parse_getthis_row, getitem in Hrow. unfold row_key, row_entry in Hr.
    destruct (r !! "SampleName"), (r !! "VolumeID"), (r !! "SnapshotID"),
      (r !! "FullName"); simpl in *; try discriminate.
    injection Hrow as <-. apply lookup_insert_ne. congruence.
Qed.

End ManifestFacts.

(** C9. On rows that all have the four columns [_parse_getthis] raises
    nothing, whether sample names repeat or not, and a sample name is mapped
    to the destination of the last row that carries it. *)
Theorem duplicate_sample_last_wins
    (csv_rows : string -> option (list row)) (getthis_content : string)
    (rows : list row)
    (Hread : csv_rows getthis_content = Some rows)
    (Hcols : Forall (fun r => is_Some (row_entry r)) rows) :
  exists m,
    _parse_getthis csv_rows getthis_content = Ret m
    /\ forall before r after k d,
         rows = (before ++ r :: after)%list ->
         row_entry r = Some (k, d) ->
         Forall (fun r' => row_key r' <> Some k) after ->
         m !! k = Some d.
Proof.
  unfold _parse_getthis. rewrite Hread.
  destruct (parse_getthis_rows_total rows Hcols ∅) as [m Hm].
  exists m. split; [exact Hm|].
  intros before r after k d -> Hr Hafter.
  apply Forall_app in Hcols as [Hb _].
  destruct (parse_getthis_rows_total before Hb ∅) as [m1 Hm1].
  rewrite (parse_getthis_rows_app _ _ _ _ Hm1) in Hm. simpl in Hm.
  rewrite (parse_getthis_row_entry _ _ _ _ Hr) in Hm. simpl in Hm.
  rewrite (parse_getthis_rows_other _ _ Hafter _ _ Hm).
  apply lookup_insert_eq.
Qed.

Lemma duplicate_sample_last_wins_witness :
  exists m,
    _parse_getthis simple_csv duplicate_text = Ret m
    /\ m !! "s" = Some ["V2 (vss {1})"; "b"; "c"].
Proof.
  assert (Hcols : Forall (fun r => is_Some (row_entry r)) duplicate_rows).
  { repeat constructor; vm_compute; eauto. }
  destruct (duplicate_sample_last_wins simple_csv duplicate_text
              duplicate_rows eq_refl Hcols) as (m & Hm & Hlast).
  exists m. split; [exact Hm|].
  apply (Hlast [List.hd ∅ duplicate_rows] (List.nth 1 duplicate_rows ∅) []).
  - reflexivity.
  - vm_compute. reflexivity.
  - constructor.
Defined.

Lemma scenario_extract (csv_rows : string -> option (list row)) :
  csv_rows getthis_text = Some [scenario_row] ->
  (extract csv_rows out "" (SrcPath ["evidence.7z"] scenario) true "" ∅).1
    !! ["out"; "V1"; "Users"; "a.txt"] = Some (File "hello").
Proof.
  intros H. unfold extract. cbn [blob_of].
  rewrite extract_from_unfold. cbn [open_archive scenario archive].
  unfold extract_members, manifest_of. cbn [lookup_member String.eqb Ascii.eqb Bool.eqb].
  unfold _parse_getthis. cbn [data_of plain]. rewrite H.
  vm_compute. reflexivity.
Qed.



(** ** The Volume Renamer stops at the first failure *)

Section Loops.

Context {X : Type} (body : tree -> X -> tree * outcome unit).

Lemma for_each_app (xs1 xs2 : list X) : forall fs,
  for_each body fs (xs1 ++ xs2)%list
  = match for_each body fs xs1 with
    | (fs1, Ret _) => for_each body fs1 xs2
    | (fs1, Raise e) => (fs1, Raise e)
    end.
Proof.
  induction xs1 as [|x xs1 IH]; intros fs; simpl; [reflexivity|].
  destruct (body fs x) as [fs' [[]|e]]; [apply IH | reflexivity].
Qed.

Lemma for_each_raise (done : list X) (x : X) (todo : list X) fs fs1 fs2 e :
  for_each body fs done = (fs1, Ret tt) ->
  body fs1 x = (fs2, Raise e) ->
  for_each body fs (done ++ x :: todo)%list = (fs2, Raise e).
Proof.
  intros Hdone Hx. rewrite for_each_app, Hdone. simpl. rewrite Hx. reflexivity.
Qed.

End Loops.

Section RenamerFacts.

Variable csv_rows : string -> option (list row).
Variable destination_path : path.


End RenamerFacts.



(** ** Induction on the nesting of the containers *)

Section BlobInduction.

Variable P : blob -> Prop.
Hypothesis step : forall data open_plain open_with,
  open_all P open_plain ->
  (forall pw, open_all P (open_with pw)) ->
  P (Blob data open_plain open_with).

Fixpoint blob_nested_ind (b : blob) : P b :=
  match b with
  | Blob data open_plain open_with =>
      let members (o : open_result blob) : open_all P o :=
        match o return open_all P o with
        | Opened _ (Some files) =>
            (fix all (l : list (string * blob)) : Forall (fun m => P m.2) l :=
               match l with
               | [] => @List.Forall_nil _ (fun m => P m.2)
               | m :: l' => @List.Forall_cons _ (fun m => P m.2) m l' (blob_nested_ind m.2) (all l')
               end) files
        | _ => I
        end in
      step data open_plain open_with (members open_plain)
        (fun pw => members (open_with pw))
  end.

End BlobInduction.

Section FailureLines.

Variable csv_rows : string -> option (list row).
Variable destination_path : path.
Variable default_password : string.

Lemma failure_lines_unfold (b : blob) (archive_name : string) :
  failure_lines csv_rows destination_path default_password b archive_name
  = match open_archive default_password b with
    | Ret (Some files) =>
        members_lines csv_rows destination_path
          (failure_lines csv_rows destination_path default_password)
          files archive_name
    | _ => ""
    end.
Proof.
  destruct b as [d op ow]; simpl.
  destruct op as [| |[|] [files|]]; try reflexivity;
    destruct (ow default_password) as [| |np [files'|]]; reflexivity.
Qed.

Lemma open_archive_members (P : blob -> Prop) data open_plain open_with files :
  open_all P open_plain ->
  (forall pw, open_all P (open_with pw)) ->
  open_archive default_password (Blob data open_plain open_with)
    = Ret (Some files) ->
  Forall (fun m => P m.2) files.
Proof.
  intros H1 H2. simpl.
  destruct open_plain as [| |[|] [fl|]]; try discriminate.
  - specialize (H2 default_password).
    destruct (open_with default_password) as [| |np [fl'|]]; try discriminate.
    intros [= <-]. exact H2.
  - specialize (H2 default_password).
    destruct (open_with default_password) as [| |np [fl'|]]; try discriminate.
    intros [= <-]. exact H2.
  - intros [= <-]. exact H1.
Qed.

End FailureLines.

(** ** Trees that only gain entries *)

Section Persistence.

Implicit Types (fs s : tree) (p q : path).

Lemma same_kind_refl n : same_kind n n.
Proof. destruct n; exact I. Qed.

Lemma same_kind_trans n1 n2 n3 :
  same_kind n1 n2 -> same_kind n2 n3 -> same_kind n1 n3.
Proof. destruct n1, n2, n3; simpl; tauto. Qed.

Lemma persists_refl fs : persists fs fs.
Proof. intros q n Hq. eauto using same_kind_refl. Qed.

Lemma persists_trans fs1 fs2 fs3 :
  persists fs1 fs2 -> persists fs2 fs3 -> persists fs1 fs3.
Proof.
  intros H12 H23 q n Hq. destruct (H12 q n Hq) as (n2 & Hq2 & Hk2).
  destruct (H23 q n2 Hq2) as (n3 & Hq3 & Hk3). eauto using same_kind_trans.
Qed.

Lemma grows_persists fs fs' : grows fs fs' -> persists fs fs'.
Proof. intros Hg q n Hq. eauto using grows_lookup, same_kind_refl. Qed.

Lemma persists_is_file fs s p : persists fs s -> is_file fs p = true -> is_file s p = true.
Proof.
  intros Hp (Hb & c & Hc)%is_file_lookup. apply is_file_lookup. split; [exact Hb|].
  destruct (Hp _ _ Hc) as ([c'|] & Hs & Hk); [eauto | destruct Hk].
Qed.

Lemma persists_is_dir fs s p : persists fs s -> is_dir fs p = true -> is_dir s p = true.
Proof.
  unfold is_dir, stat. intros Hp. destruct (is_base p); [auto|].
  destruct (fs !! p) as [[c|]|] eqn:E; try discriminate. intros _.
  destruct (Hp _ _ E) as ([c'|] & -> & Hk); [destruct Hk | reflexivity].
Qed.

Lemma append_persists fs p line : persists fs (append fs p line).
Proof.
  unfold append. destruct (fs !! p) as [[old|]|] eqn:E; try apply persists_refl.
  intros q n Hq. destruct (decide (p = q)) as [<-|Hne].
  - rewrite lookup_insert_eq. rewrite E in Hq. injection Hq as <-.
    eexists. split; [reflexivity | exact I].
  - rewrite lookup_insert_ne by assumption. eauto using same_kind_refl.
Qed.

Lemma is_dir_same_kind fs s : persists fs s -> persists s fs ->
  forall p, is_dir fs p = is_dir s p.
Proof.
  intros H1 H2 p. destruct (is_dir fs p) eqn:E1, (is_dir s p) eqn:E2; try reflexivity.
  - rewrite (persists_is_dir _ _ _ H1 E1) in E2. discriminate.
  - rewrite (persists_is_dir _ _ _ H2 E2) in E1. discriminate.
Qed.

Lemma append_wf fs p line : wf fs -> wf (append fs p line).
Proof.
  intros Hwf q n Hq.
  apply (persists_is_dir fs); [apply append_persists|].
  unfold append in Hq. destruct (fs !! p) as [[old|]|] eqn:E; eauto.
  destruct (decide (p = q)) as [<-|Hne].
  - eauto.
  - rewrite lookup_insert_ne in Hq by assumption. eauto.
Qed.

Lemma append_append fs p l1 l2 :
  append (append fs p l1) p l2 = append fs p (l1 ++ l2).
Proof.
  unfold append. destruct (fs !! p) as [[old|]|] eqn:E; rewrite ?E; try reflexivity.
  rewrite lookup_insert_eq, insert_insert_eq.
  by rewrite append_assoc.
Qed.

Lemma append_empty fs p : append fs p "" = fs.
Proof.
  unfold append. destruct (fs !! p) as [[old|]|] eqn:E; try reflexivity.
  apply insert_id. by rewrite append_nil_r.
Qed.

Lemma append_is_file fs p q line : is_file (append fs p line) q = is_file fs q.
Proof.
  destruct (is_file fs q) eqn:E.
  - eapply persists_is_file; [apply append_persists | exact E].
  - destruct (is_file (append fs p line) q) eqn:E'; [|reflexivity].
    apply is_file_lookup in E' as (Hb & c & Hc).
    assert (is_file fs q = true); [|congruence].
    apply is_file_lookup. split; [exact Hb|]. unfold append in Hc.
    destruct (fs !! p) as [[old|]|] eqn:Ep; eauto.
    destruct (decide (p = q)) as [<-|Hne]; [eauto|].
    rewrite lookup_insert_ne in Hc by assumption. eauto.
Qed.

End Persistence.

Section WellFormed.

Implicit Types (fs s : tree) (p q x : path).

Lemma parent_snoc p : is_base p = false -> exists c, p = (parent p ++ [c])%list.
Proof.
  destruct p as [|a [|b p]]; simpl; try discriminate.
  - intros ->. exists a. reflexivity.
  - intros _. exists (List.last (a :: b :: p) "").
    apply (app_removelast_last (l := a :: b :: p) ""). discriminate.
Qed.

Lemma prefix_snoc_inv (q l : path) c :
  q `prefix_of` (l ++ [c])%list -> q = (l ++ [c])%list \/ q `prefix_of` l.
Proof.
  intros [k Hk]. destruct k as [|y k _] using rev_ind.
  - left. rewrite app_nil_r in Hk. congruence.
  - right. rewrite app_assoc in Hk. apply app_inj_tail in Hk as [-> _].
    by exists k.
Qed.

Lemma prefix_parent q p :
  is_base p = false -> q `prefix_of` p -> q <> p -> q `prefix_of` parent p.
Proof.
  intros Hb Hq Hne. destruct (parent_snoc p Hb) as [c E].
  rewrite E in Hq. apply prefix_snoc_inv in Hq as [Hq|Hq]; [|exact Hq].
  congruence.
Qed.

Lemma long_not_base q p :
  is_base q = false -> q `prefix_of` p -> is_base p = false.
Proof.
  intros Hb [k ->]. destruct q as [|a [|b q]]; simpl in *; try discriminate.
  - destruct k; simpl; [exact Hb | reflexivity].
  - reflexivity.
Qed.

(** In a well-formed tree nothing lies below a file. *)
Lemma wf_below_file s q : wf s -> is_file s q = true ->
  forall n x, length x <= n -> q `prefix_of` x -> q <> x -> stat s x = None.
Proof.
  intros Hwf Hq. induction n as [|n IH]; intros x Hlen Hpre Hne.
  - destruct x; [|simpl in Hlen; lia].
    apply prefix_nil_inv in Hpre. congruence.
  - apply is_file_lookup in Hq as Hq'. destruct Hq' as (Hqb & c & Hc).
    pose proof (long_not_base _ _ Hqb Hpre) as Hxb.
    rewrite stat_not_base by assumption.
    destruct (s !! x) as [nd|] eqn:Hx; [|reflexivity]. exfalso.
    apply Hwf in Hx. pose proof (prefix_parent _ _ Hxb Hpre Hne) as Hpp.
    pose proof (parent_length x Hxb) as Hpl.
    destruct (decide (q = parent x)) as [E|Hd].
    + rewrite <- E in Hx. unfold is_dir in Hx. unfold is_file in Hq.
      destruct (stat s q) as [[?|]|]; discriminate.
    + unfold is_dir in Hx.
      rewrite (IH (parent x)) in Hx; try assumption; [discriminate | lia].
Qed.

Lemma is_dir_mkdir_parents fuel fs p :
  is_dir fs p = true -> mkdir_parents fuel fs p = inl fs.
Proof.
  intros Hd. unfold is_dir in Hd.
  destruct (stat fs p) as [[c|]|] eqn:Hs; try discriminate.
  assert (Hd' : is_dir fs p = true) by (unfold is_dir; by rewrite Hs).
  destruct fuel; simpl; unfold os_mkdir; rewrite Hs, Hd'; reflexivity.
Qed.

Lemma os_mkdir_blocked s q x : wf s -> is_file s q = true -> q `prefix_of` x ->
  is_dir s x = false
  /\ exists e, os_mkdir s x = inr e
              /\ (e = ENOENT -> q <> x /\ is_base x = false).
Proof.
  intros Hwf Hq Hpre.
  apply is_file_lookup in Hq as Hq'. destruct Hq' as (Hqb & c & Hc).
  pose proof (long_not_base _ _ Hqb Hpre) as Hxb.
  destruct (decide (q = x)) as [<-|Hne].
  - unfold is_dir, os_mkdir. rewrite (stat_not_base _ _ Hqb), Hc.
    split; [reflexivity|]. exists EEXIST. split; [reflexivity | discriminate].
  - pose proof (wf_below_file s q Hwf Hq _ x (Nat.le_refl _) Hpre Hne) as Hx.
    unfold is_dir, os_mkdir. rewrite Hx. split; [reflexivity|].
    pose proof (prefix_parent _ _ Hxb Hpre Hne) as Hpp.
    destruct (decide (q = parent x)) as [<-|Hd].
    + rewrite (stat_not_base _ _ Hqb), Hc. exists ENOTDIR.
      split; [reflexivity | discriminate].
    + rewrite (wf_below_file s q Hwf Hq _ (parent x) (Nat.le_refl _) Hpp Hd).
      exists ENOENT. auto.
Qed.

Lemma mkdir_parents_blocked s q : wf s -> is_file s q = true ->
  forall fuel x, q `prefix_of` x -> mkdir_parents fuel s x = inr s.
Proof.
  intros Hwf Hq. induction fuel as [|k IH]; intros x Hpre;
    destruct (os_mkdir_blocked s q x Hwf Hq Hpre) as (Hnd & e & Hm & He);
    simpl; rewrite Hm, Hnd.
  - destruct e; try reflexivity. destruct (decide (parent x = x)); reflexivity.
  - destruct e; try reflexivity. destruct (decide (parent x = x)); [reflexivity|].
    destruct He as [Hne Hb]; [reflexivity|].
    rewrite (IH (parent x)); [reflexivity | by apply prefix_parent].
Qed.

End WellFormed.

Section MakingDirectories.

Implicit Types (fs s : tree) (p q x : path).

Lemma os_mkdir_inr_is_dir fs p e :
  os_mkdir fs p = inr e -> is_dir fs p = true -> e = EEXIST.
Proof.
  unfold os_mkdir, is_dir. destruct (stat fs p) as [[c|]|]; try discriminate.
  intros [= <-]. reflexivity.
Qed.

Lemma mkdir_parents_inl_is_dir fuel : forall fs p fs',
  mkdir_parents fuel fs p = inl fs' -> is_dir fs' p = true.
Proof.
  induction fuel as [|k IH]; intros fs p fs'; simpl;
    destruct (os_mkdir fs p) as [fs0|e] eqn:Hm.
  - intros [= <-]. apply os_mkdir_inl in Hm as (-> & _). apply is_dir_insert_dir.
  - destruct e; try (destruct (is_dir fs p) eqn:Hd; intros [= <-]; exact Hd).
    destruct (decide (parent p = p)); discriminate.
  - intros [= <-]. apply os_mkdir_inl in Hm as (-> & _). apply is_dir_insert_dir.
  - destruct e; try (destruct (is_dir fs p) eqn:Hd; intros [= <-]; exact Hd).
    destruct (decide (parent p = p)); [discriminate|].
    destruct (mkdir_parents k fs (parent p)) as [fs1|fs1]; [|discriminate].
    destruct (os_mkdir fs1 p) as [fs2|e] eqn:Hm2.
    + intros [= <-]. apply os_mkdir_inl in Hm2 as (-> & _). apply is_dir_insert_dir.
    + destruct e; destruct (is_dir fs1 p) eqn:Hd; intros [= <-]; exact Hd.
Qed.

(** Only a file on the way makes [mkdir] fail. *)
Lemma os_mkdir_inr_cases fs p e :
  os_mkdir fs p = inr e ->
  is_dir fs p = true
  \/ is_file fs p = true
  \/ is_file fs (parent p) = true
  \/ (e = ENOENT /\ is_base p = false /\ fs !! p = None
      /\ stat fs (parent p) = None).
Proof.
  unfold os_mkdir, is_dir, is_file.
  destruct (stat fs p) as [[c|]|] eqn:Hs; auto.
  apply stat_None in Hs as [Hb Hn].
  destruct (stat fs (parent p)) as [[c|]|] eqn:Hsp; try discriminate; auto.
  intros [= <-]. do 3 right. auto.
Qed.

Lemma mkdir_parents_inr_file fuel : forall fs p fs',
  length p <= fuel ->
  mkdir_parents fuel fs p = inr fs' ->
  exists q, q `prefix_of` p /\ is_file fs q = true.
Proof.
  induction fuel as [|k IH]; intros fs p fs' Hlen; simpl;
    destruct (os_mkdir fs p) as [fs0|e] eqn:Hm; try discriminate;
    destruct (os_mkdir_inr_cases _ _ _ Hm) as [Hd|[Hf|[Hf|(-> & Hb & Hn & Hsp)]]];
    try (intros _; exists p; split; [reflexivity | exact Hf]);
    try (intros _; exists (parent p); split; [apply parent_prefix | exact Hf]);
    try (pose proof (os_mkdir_inr_is_dir _ _ _ Hm Hd) as ->; rewrite Hd;
         discriminate).
  - destruct p; [discriminate | simpl in Hlen; lia].
  - pose proof (parent_length p Hb) as Hpl.
    destruct (decide (parent p = p)) as [E|_]; [rewrite E in Hpl; lia|].
    pose proof (mkdir_parents_grows k fs (parent p)) as Hg.
    destruct (mkdir_parents k fs (parent p)) as [fs1|fs1] eqn:Hrec.
    + apply mkdir_parents_inl_is_dir in Hrec as Hd1.
      unfold os_mkdir. unfold is_dir in Hd1.
      destruct (stat fs1 (parent p)) as [[c|]|]; try discriminate.
      unfold stat at 1. rewrite Hb.
      destruct (Hg p) as [E|[_ E]]; rewrite E.
      * rewrite Hn. discriminate.
      * unfold is_dir, stat. rewrite Hb, E. discriminate.
    + intros _. destruct (IH fs (parent p) fs1) as (q & Hq & Hf); [lia | exact Hrec |].
      exists q. split; [|exact Hf]. etrans; [exact Hq | apply parent_prefix].
Qed.

Lemma os_mkdir_wf fs p fs' : os_mkdir fs p = inl fs' -> wf fs -> wf fs'.
Proof.
  intros Hm Hwf. pose proof (os_mkdir_grows _ _ _ Hm) as Hg.
  apply os_mkdir_inl in Hm as (-> & Hb & Hn & Hd).
  intros q n Hq. apply (persists_is_dir fs); [by apply grows_persists|].
  destruct (decide (p = q)) as [<-|Hne]; [exact Hd|].
  rewrite lookup_insert_ne in Hq by assumption. eauto.
Qed.

Lemma mkdir_parents_wf fuel : forall fs p, wf fs ->
  match mkdir_parents fuel fs p with inl fs' | inr fs' => wf fs' end.
Proof.
  induction fuel as [|k IH]; intros fs p Hwf; simpl;
    destruct (os_mkdir fs p) as [fs0|e] eqn:Hm;
    try (by eapply os_mkdir_wf).
  - destruct e; try (destruct (is_dir fs p); exact Hwf).
    destruct (decide (parent p = p)); exact Hwf.
  - destruct e; try (destruct (is_dir fs p); exact Hwf).
    destruct (decide (parent p = p)); [exact Hwf|].
    specialize (IH fs (parent p) Hwf).
    destruct (mkdir_parents k fs (parent p)) as [fs1|fs1]; [|exact IH].
    destruct (os_mkdir fs1 p) as [fs2|e] eqn:Hm2; [by eapply os_mkdir_wf|].
    destruct e; try (destruct (is_dir fs1 p); exact IH); exact IH.
Qed.

Lemma insert_file_wf fs p c :
  wf fs -> is_dir fs p = false -> is_dir fs (parent p) = true ->
  wf (<[p := File c]> fs).
Proof.
  intros Hwf Hnd Hpd.
  assert (Hb : is_base p = false).
  { unfold is_dir, stat in Hnd. destruct (is_base p); [discriminate | reflexivity]. }
  assert (Hpp : parent p <> p).
  { intros E. pose proof (parent_length p Hb) as Hl. rewrite E in Hl. lia. }
  assert (Hkeep : forall x, x <> p -> is_dir fs x = true ->
                            is_dir (<[p := File c]> fs) x = true).
  { intros x Hx. unfold is_dir, stat. destruct (is_base x); [auto|].
    by rewrite lookup_insert_ne. }
  intros q n Hq. destruct (decide (p = q)) as [<-|Hne]; [by apply Hkeep|].
  rewrite lookup_insert_ne in Hq by assumption.
  apply Hkeep; [|eauto]. intros E. apply Hwf in Hq. congruence.
Qed.

Lemma write_file_wf fs p c : wf fs -> wf (_write_file fs p c).2.
Proof.
  intros Hwf. unfold _write_file. destruct (is_file fs p); [exact Hwf|].
  pose proof (mkdir_parents_wf (length (parent p)) fs (parent p) Hwf) as Hwf1.
  unfold Path_mkdir. destruct (mkdir_parents _ fs (parent p)) as [fs1|fs1];
    [|exact Hwf1].
  unfold open_wb.
  destruct (stat fs1 p) as [[c'|]|] eqn:Hs; simpl; try exact Hwf1;
    destruct (is_dir fs1 (parent p)) eqn:Hd; simpl; try exact Hwf1;
    apply insert_file_wf; auto; unfold is_dir; by rewrite Hs.
Qed.

Lemma write_member_wf dest archive_name fs filename p c :
  wf fs -> wf (write_member dest archive_name fs filename p c).
Proof.
  intros Hwf. unfold write_member.
  pose proof (write_file_wf fs p c Hwf) as Hwf1.
  destruct (_write_file fs p c) as [[|] fs']; simpl in *;
    [exact Hwf1 | by apply append_wf].
Qed.

Lemma write_file_persists fs p c : persists fs (_write_file fs p c).2.
Proof.
  intros q n Hq. exists n. split; [|apply same_kind_refl].
  by apply write_file_grows_or_creates.
Qed.

Lemma write_member_persists dest archive_name fs filename p c :
  persists fs (write_member dest archive_name fs filename p c).
Proof.
  unfold write_member. pose proof (write_file_persists fs p c) as Hp.
  destruct (_write_file fs p c) as [[|] fs']; simpl in *; [exact Hp|].
  eapply persists_trans; [exact Hp | apply append_persists].
Qed.

(** A write that was tried once fails afterwards, and changes nothing. *)
Lemma write_again fs s p c :
  persists (_write_file fs p c).2 s -> wf s -> _write_file s p c = (false, s).
Proof.
  intros Hp Hwf.
  assert (Hfs : persists fs s).
  { eapply persists_trans; [apply write_file_persists | exact Hp]. }
  unfold _write_file in Hp.
  destruct (is_file fs p) eqn:Hf.
  { apply write_file_on_file. eauto using persists_is_file. }
  unfold Path_mkdir in Hp.
  destruct (mkdir_parents (length (parent p)) fs (parent p)) as [fs1|fs1] eqn:Hm.
  - apply mkdir_parents_inl_is_dir in Hm as Hd.
    unfold open_wb in Hp. destruct (stat fs1 p) as [[c'|]|] eqn:Hs.
    + (* the destination is written *)
      rewrite Hd in Hp. simpl in Hp. apply write_file_on_file.
      apply stat_file in Hs as Hl.
      assert (Hb : is_base p = false).
      { unfold stat in Hs. destruct (is_base p); [discriminate | reflexivity]. }
      destruct (Hp p (File c)) as ([c''|] & Hq & Hk);
        [apply lookup_insert_eq | | destruct Hk].
      apply is_file_lookup. eauto.
    + (* the destination is a directory *)
      simpl in Hp.
      assert (Hds : is_dir s p = true).
      { apply (persists_is_dir fs1); [exact Hp|]. unfold is_dir. by rewrite Hs. }
      assert (Hps : is_dir s (parent p) = true).
      { unfold is_dir, stat in Hds. destruct (is_base p) eqn:Hb.
        - destruct p as [|a [|b p]]; try discriminate; [reflexivity|].
          simpl in Hb. simpl. rewrite Hb. unfold is_dir, stat. simpl. by rewrite Hb.
        - destruct (s !! p) as [n|] eqn:E; [|discriminate]. eauto. }
      unfold _write_file, Path_mkdir, is_file, open_wb.
      rewrite (is_dir_mkdir_parents _ _ _ Hps).
      unfold is_dir in Hds. destruct (stat s p) as [[?|]|]; try discriminate.
      reflexivity.
    + rewrite Hd in Hp. simpl in Hp. apply write_file_on_file.
      apply stat_None in Hs as [Hb _].
      destruct (Hp p (File c)) as ([c''|] & Hq & Hk);
        [apply lookup_insert_eq | | destruct Hk].
      apply is_file_lookup. eauto.
  - (* a file on the way *)
    simpl in Hp.
    destruct (mkdir_parents_inr_file _ _ _ _ (Nat.le_refl _) Hm) as (q & Hq & Hfq).
    assert (Hsq : is_file s q = true) by eauto using persists_is_file.
    apply is_file_lookup in Hsq as Hsq'. destruct Hsq' as (Hqb & _).
    assert (Hqp : q `prefix_of` p) by (etrans; [exact Hq | apply parent_prefix]).
    pose proof (long_not_base _ _ Hqb Hqp) as Hb.
    assert (Hne : q <> p).
    { intros ->. by apply (prefix_parent_proper p Hb). }
    pose proof (wf_below_file s q Hwf Hsq _ p (Nat.le_refl _) Hqp Hne) as Hsp.
    unfold _write_file, Path_mkdir, is_file. rewrite Hsp.
    rewrite (mkdir_parents_blocked s q Hwf Hsq _ _ Hq). reflexivity.
Qed.

End MakingDirectories.

Section FailureLog.

Variable destination_path : path.

Lemma script_logs_path_snoc :
  script_logs_path destination_path
  = (destination_path ++ ["non_extracted.log"])%list.
Proof. reflexivity. Qed.

Lemma script_logs_path_not_base : is_base (script_logs_path destination_path) = false.
Proof.
  rewrite script_logs_path_snoc. destruct destination_path as [|a [|b d]]; reflexivity.
Qed.

Lemma open_script_log_persists fs :
  persists fs (open_script_log destination_path fs).1.
Proof.
  unfold open_script_log.
  pose proof (Path_mkdir_grows fs (parent (script_logs_path destination_path))) as Hg.
  destruct (Path_mkdir fs _) as [fs1|fs1]; simpl; [|by apply grows_persists].
  unfold open_a. destruct (stat fs1 _) as [[c|]|] eqn:Hs; simpl;
    try (by apply grows_persists).
  destruct (is_dir fs1 _); simpl; [|by apply grows_persists].
  apply stat_None in Hs as [_ Hn].
  eapply persists_trans; [by apply grows_persists|].
  intros q n Hq. exists n. split; [|apply same_kind_refl].
  rewrite lookup_insert_ne; [exact Hq | congruence].
Qed.

Lemma open_script_log_wf fs :
  wf fs -> wf (open_script_log destination_path fs).1.
Proof.
  intros Hwf. unfold open_script_log, Path_mkdir.
  pose proof (mkdir_parents_wf (length (parent (script_logs_path destination_path)))
                fs (parent (script_logs_path destination_path)) Hwf) as Hwf1.
  destruct (mkdir_parents _ fs _) as [fs1|fs1]; simpl; [|exact Hwf1].
  unfold open_a. destruct (stat fs1 _) as [[c|]|] eqn:Hs; simpl; try exact Hwf1.
  destruct (is_dir fs1 (parent _)) eqn:Hd; simpl; [|exact Hwf1].
  apply insert_file_wf; auto. unfold is_dir. by rewrite Hs.
Qed.

Lemma open_script_log_opened fs fs1 :
  open_script_log destination_path fs = (fs1, Ret tt) ->
  is_file fs1 (script_logs_path destination_path) = true.
Proof.
  unfold open_script_log. destruct (Path_mkdir fs _) as [fs0|fs0]; [|discriminate].
  unfold open_a. destruct (stat fs0 _) as [[c|]|] eqn:Hs.
  - intros [= <-]. unfold is_file. by rewrite Hs.
  - discriminate.
  - destruct (is_dir fs0 _); [|discriminate]. intros [= <-].
    apply is_file_lookup. split; [apply script_logs_path_not_base|].
    eexists. apply lookup_insert_eq.
Qed.

Lemma open_script_log_again s :
  wf s -> is_file s (script_logs_path destination_path) = true ->
  open_script_log destination_path s = (s, Ret tt).
Proof.
  intros Hwf Hf. apply is_file_lookup in Hf as Hf'. destruct Hf' as (Hb & c & Hc).
  unfold open_script_log, Path_mkdir.
  rewrite (is_dir_mkdir_parents _ _ _ (Hwf _ _ Hc)).
  unfold open_a. by rewrite (stat_not_base _ _ Hb), Hc.
Qed.

End FailureLog.

(** ** A second run *)

Section SecondRun.

Variable csv_rows : string -> option (list row).
Variable destination_path : path.
Variable default_password : string.

Local Abbreviation run :=
  (extract_from csv_rows destination_path default_password).
Local Abbreviation script := (script_logs_path destination_path).
Local Abbreviation lines :=
  (failure_lines csv_rows destination_path default_password).
Local Abbreviation run_grows :=
  (run_grows csv_rows destination_path default_password).
Local Abbreviation run_again :=
  (run_again csv_rows destination_path default_password).

Lemma member_step_grows getthis_mapping archive_name fs (m : string * blob) fs' o :
  run_grows m.2 ->
  member_step destination_path run getthis_mapping archive_name fs m = (fs', o) ->
  persists fs fs' /\ (wf fs -> wf fs').
Proof.
  intros Hm. unfold member_step.
  destruct (classify _ _ _ _) as [final_path|].
  - intros [= <- <-]. split; [apply write_member_persists | apply write_member_wf].
  - destruct (run m.2 m.1 false fs) as [fs0 [r|e]] eqn:Hr;
      intros [= <- <-]; eapply Hm; exact Hr.
Qed.

Lemma members_loop_grows getthis_mapping archive_name (files : list (string * blob)) :
  Forall (fun m => run_grows m.2) files ->
  forall fs fs' o,
    for_each (member_step destination_path run getthis_mapping archive_name)
             fs files = (fs', o) ->
    persists fs fs' /\ (wf fs -> wf fs').
Proof.
  induction 1 as [|m files Hm _ IH]; intros fs fs' o; simpl.
  - intros [= <- <-]. split; [apply persists_refl | auto].
  - destruct (member_step _ _ _ _ fs m) as [fs1 [[]|e]] eqn:Hs.
    + intros Hrest. destruct (member_step_grows _ _ _ _ _ _ Hm Hs) as [Hp1 Hw1].
      destruct (IH _ _ _ Hrest) as [Hp2 Hw2].
      split; [eapply persists_trans; eassumption | auto].
    + intros [= <- <-]. eapply member_step_grows; eassumption.
Qed.

Lemma run_grows_all (b : blob) : run_grows b.
Proof.
  induction b as [data open_plain open_with H1 H2] using blob_nested_ind.
  intros archive_name fs fs' o. rewrite extract_from_unfold.
  destruct (open_archive default_password (Blob data open_plain open_with))
    as [[files|]|e] eqn:Hopen;
    try (intros [= <- <-]; split; [apply persists_refl | auto]).
  pose proof (open_archive_members default_password _ _ _ _ _ H1 H2 Hopen) as Hall.
  unfold extract_members.
  pose proof (open_script_log_persists destination_path fs) as Hp0.
  pose proof (open_script_log_wf destination_path fs) as Hw0.
  destruct (open_script_log destination_path fs) as [fs1 [[]|e]]; simpl in *;
    [|intros [= <- <-]; auto].
  destruct (manifest_of csv_rows files) as [mapping|e];
    [|intros [= <- <-]; auto].
  destruct (for_each _ fs1 files) as [fs2 [[]|e]] eqn:Hloop;
    destruct (members_loop_grows _ _ _ Hall _ _ _ Hloop) as [Hp1 Hw1];
    simpl; intros [= <- <-];
    (split; [eapply persists_trans; eassumption | auto]).
Qed.

Lemma member_step_again getthis_mapping archive_name fs (m : string * blob)
    fs1 s :
  run_again m.2 ->
  member_step destination_path run getthis_mapping archive_name fs m
    = (fs1, Ret tt) ->
  persists fs1 s -> wf s ->
  member_step destination_path run getthis_mapping archive_name s m
  = (append s script
       (member_lines destination_path lines getthis_mapping archive_name m),
     Ret tt).
Proof.
  intros Hm. unfold member_step, member_lines.
  destruct (classify _ _ _ _) as [final_path|].
  - intros [= <-] Hp Hwf. f_equal. unfold write_member in *.
    rewrite (write_again fs s final_path (data_of m.2)); [reflexivity | | exact Hwf].
    destruct (_write_file fs final_path (data_of m.2)) as [[|] fs']; simpl in *;
      [exact Hp|].
    eapply persists_trans; [apply append_persists | exact Hp].
  - destruct (run m.2 m.1 false fs) as [fs0 [r|e]] eqn:Hr; [|discriminate].
    intros [= <-] Hp Hwf. rewrite (Hm _ _ _ _ _ Hr Hp Hwf). reflexivity.
Qed.

Lemma members_loop_again getthis_mapping archive_name (files : list (string * blob)) :
  Forall (fun m => run_grows m.2 /\ run_again m.2) files ->
  forall fs fs_end s,
    for_each (member_step destination_path run getthis_mapping archive_name)
             fs files = (fs_end, Ret tt) ->
    persists fs_end s -> wf s ->
    for_each (member_step destination_path run getthis_mapping archive_name)
             s files
    = (append s script
         (List.fold_right
            (fun m rest =>
               member_lines destination_path lines getthis_mapping
                 archive_name m ++ rest) "" files),
       Ret tt).
Proof.
  induction 1 as [|m files [Hg Ha] Hall IH]; intros fs fs_end s; simpl.
  - intros _ _ _. by rewrite append_empty.
  - destruct (member_step _ _ _ _ fs m) as [fs1 [[]|e]] eqn:Hs; [|discriminate].
    intros Hrest Hp Hwf.
    assert (Hgrow : persists fs1 fs_end).
    { eapply (members_loop_grows _ _ files); [|exact Hrest].
      eapply Forall_impl; [exact Hall | by intros ? []]. }
    rewrite (member_step_again _ _ _ _ _ s Ha Hs);
      [|eapply persists_trans; eassumption | exact Hwf].
    rewrite (IH _ _ _ Hrest).
    + by rewrite append_append.
    + eapply persists_trans; [exact Hp | apply append_persists].
    + by apply append_wf.
Qed.

Lemma run_again_all (b : blob) : run_again b.
Proof.
  induction b as [data open_plain open_with H1 H2] using blob_nested_ind.
  intros archive_name fs fs_end r s.
  rewrite !extract_from_unfold, failure_lines_unfold.
  destruct (open_archive default_password (Blob data open_plain open_with))
    as [[files|]|e] eqn:Hopen; try discriminate.
  2:{ intros [= <- <-] _ _. by rewrite append_empty. }
  assert (Hall : Forall (fun m => run_grows m.2 /\ run_again m.2) files).
  { pose proof (open_archive_members default_password _ _ _ _ _ H1 H2 Hopen)
      as Hall.
    eapply Forall_impl; [exact Hall|]. intros m Hm. split; [apply run_grows_all | exact Hm]. }
  unfold extract_members, members_lines.
  destruct (open_script_log destination_path fs) as [fs1 [[]|e]] eqn:Hlog;
    [|discriminate].
  destruct (manifest_of csv_rows files) as [mapping|e]; [|discriminate].
  destruct (for_each _ fs1 files) as [fs2 [[]|e]] eqn:Hloop; [|discriminate].
  simpl. intros [= <- <-] Hp Hwf.
  assert (Hlogfile : is_file s script = true).
  { apply (persists_is_file fs2); [exact Hp|].
    apply (persists_is_file fs1); [|by eapply open_script_log_opened].
    eapply (members_loop_grows _ _ files); [|exact Hloop].
    eapply Forall_impl; [exact Hall | by intros ? []]. }
  rewrite (open_script_log_again _ _ Hwf Hlogfile).
  rewrite (members_loop_again _ _ _ Hall _ _ _ Hloop Hp Hwf). reflexivity.
Qed.

End SecondRun.

(** ** Running twice *)

Lemma append_lookup_ne (fs : tree) (p q : path) (line : string) :
  q <> p -> append fs p line !! q = fs !! q.
Proof.
  intros Hne. unfold append. destruct (fs !! p) as [[old|]|]; try reflexivity.
  apply lookup_insert_ne. congruence.
Qed.

Section Idempotence.

Variable csv_rows : string -> option (list row).
Variable destination_path : path.
Variable default_password : string.

Local Abbreviation extract' :=
  (extract csv_rows destination_path default_password).
Local Abbreviation script := (script_logs_path destination_path).
Local Abbreviation rerun :=
  (rerun csv_rows destination_path default_password).

Lemma extract_is_extract_from archive_path rename_volumes archive_name fs :
  extract' archive_path rename_volumes archive_name fs
  = extract_from csv_rows destination_path default_password
      (blob_of archive_path) (name_of archive_path archive_name)
      rename_volumes fs.
Proof. reflexivity. Qed.


End Idempotence.

Lemma wf_empty : wf ∅.
Proof. intros p n Hp. rewrite lookup_empty in Hp. discriminate. Qed.



(** ** The result of [extract] *)

Section Result.

Variable csv_rows : string -> option (list row).
Variable destination_path : path.
Variable default_password : string.

Local Abbreviation extract' :=
  (extract csv_rows destination_path default_password).
Local Abbreviation run :=
  (extract_from csv_rows destination_path default_password).

Lemma finish_not_false rename_volumes fs :
  (finish csv_rows destination_path rename_volumes fs).2 <> Ret false.
Proof.
  unfold finish. destruct rename_volumes; [|discriminate].
  destruct (_rename_volumes _ _ fs) as [fs' [[]|e]]; discriminate.
Qed.

Lemma extract_members_not_false files archive_name rename_volumes fs :
  (extract_members csv_rows destination_path run files archive_name
     rename_volumes fs).2 <> Ret false.
Proof.
  unfold extract_members.
  destruct (open_script_log destination_path fs) as [fs1 [[]|e]]; [|discriminate].
  destruct (manifest_of csv_rows files) as [mapping|e]; [|discriminate].
  destruct (for_each _ fs1 files) as [fs2 [[]|e]]; [|discriminate].
  apply finish_not_false.
Qed.

(** The members loop returns when every nested container is invalid,
    whatever the writes do. *)
Lemma members_loop_returns getthis_mapping archive_name
    (files : list (string * blob)) :
  (forall m, m ∈ files ->
     classify getthis_mapping destination_path archive_name m.1 = Nested ->
     open_archive default_password m.2 = Ret None) ->
  forall fs, exists fs',
    for_each (member_step destination_path run getthis_mapping archive_name)
             fs files = (fs', Ret tt).
Proof.
  induction files as [|m files IH]; intros Hbad fs; simpl; [eauto|].
  assert (Hstep : exists fs1,
            member_step destination_path run getthis_mapping archive_name fs m
            = (fs1, Ret tt)).
  { unfold member_step.
    destruct (classify _ _ _ _) as [final_path|] eqn:Hc; [eauto|].
    rewrite extract_from_unfold, (Hbad m); [eauto | left | exact Hc]. }
  destruct Hstep as [fs1 ->].
  apply IH. intros m' Hm'. apply Hbad. by right.
Qed.

(** C5, as the code has it.  [extract] returns [False] exactly when the
    container cannot be opened as a container, and then it has done
    nothing.  On a container that opens it never returns [False]: it returns
    [True] or an exception leaves it.  When the failure log opens, the
    manifest is read and every nested container is invalid, the loop over
    the members ends whatever the writes do; the result is then the one of
    the renaming, and [True] when the volumes are not renamed. *)
Theorem extract_result
    (archive_path : source) (rename_volumes : bool) (archive_name : string)
    (fs : tree) :
  let result := extract' archive_path rename_volumes archive_name fs in
  let opened := open_archive default_password (blob_of archive_path) in
  (result.2 = Ret false <-> opened = Ret None)
  /\ (opened = Ret None -> result = (fs, Ret false))
  /\ (forall files, opened = Ret (Some files) ->
        result.2 = Ret true \/ exists e, result.2 = Raise e)
  /\ (forall files fs1 getthis_mapping,
        opened = Ret (Some files) ->
        open_script_log destination_path fs = (fs1, Ret tt) ->
        manifest_of csv_rows files = Ret getthis_mapping ->
        (forall m, m ∈ files ->
           classify getthis_mapping destination_path
             (name_of archive_path archive_name) m.1 = Nested ->
           open_archive default_password m.2 = Ret None) ->
        exists fs2,
          for_each (member_step destination_path run getthis_mapping
                      (name_of archive_path archive_name)) fs1 files
          = (fs2, Ret tt)
          /\ result = finish csv_rows destination_path rename_volumes fs2
          /\ (rename_volumes = false -> result = (fs2, Ret true))).
Proof.
  intros result opened. subst result opened.
  rewrite extract_is_extract_from, extract_from_unfold.
  destruct (open_archive default_password (blob_of archive_path))
    as [[files|]|e] eqn:Hopen.
  - pose proof (extract_members_not_false files
                  (name_of archive_path archive_name) rename_volumes fs) as Hnf.
    split; [|split; [|split]].
    + split; [intros H; contradiction | discriminate].
    + discriminate.
    + intros _ _.
      destruct (extract_members _ _ _ _ _ _ fs) as [fs' [[|]|e]]; simpl in *;
        [auto | contradiction | eauto].
    + intros files' fs1 mapping [= <-] Hlog Hman Hbad.
      destruct (members_loop_returns _ _ _ Hbad fs1) as [fs2 Hloop].
      exists fs2. unfold extract_members. rewrite Hlog, Hman, Hloop.
      split; [reflexivity|]. split; [reflexivity|]. intros ->. reflexivity.
  - split; [|split; [|split]]; try discriminate; auto. split; reflexivity.
  - split; [|split; [|split]]; try discriminate. split; discriminate.
Qed.

End Result.

Lemma extract_result_witness :
  (extract simple_csv out "" (SrcPath ["evidence.7z"] broken_archive) false ""
     taken_tree).2 = Ret true.
Proof.
  destruct (extract_result simple_csv out ""
              (SrcPath ["evidence.7z"] broken_archive) false "" taken_tree)
    as (_ & _ & _ & H).
  destruct (H [("a.txt", plain "new"); ("bad.7z", plain "junk")]
              (open_script_log out taken_tree).1 ∅)
    as (fs2 & _ & _ & Hret).
  - reflexivity.
  - rewrite (surjective_pairing (open_script_log out taken_tree)) at 1.
    f_equal; vm_compute; reflexivity.
  - reflexivity.
  - intros m Hm _.
    apply elem_of_cons in Hm as [->|Hm]; [reflexivity|].
    apply elem_of_cons in Hm as [->|Hm]; [reflexivity|].
    by apply elem_of_nil in Hm.
  - rewrite (Hret eq_refl). reflexivity.
Defined.

(** A container that opens, on a tree where the renaming fails: [extract]
    returns nothing. *)
Lemma valid_container_can_raise :
  (exists files, open_archive "" scenario = Ret (Some files))
  /\ (extract simple_csv out "" (SrcPath ["evidence.7z"] scenario) true ""
        occupied_tree).2 = Raise OSError.
Proof. split; [eexists; reflexivity | vm_compute; reflexivity]. Qed.

(** * Further properties *)

(** ** What a run without renaming keeps *)

Section Keeping.

Variable log : path.
Implicit Types (fs s : tree) (p q : path).

Lemma keeps_refl fs : keeps log fs fs.
Proof. intros q n Hq. by left. Qed.

Lemma keeps_trans fs1 fs2 fs3 :
  keeps log fs1 fs2 -> keeps log fs2 fs3 -> keeps log fs1 fs3.
Proof.
  intros H12 H23 q n Hq.
  destruct (H12 q n Hq) as [H2|(-> & old & extra & -> & H2)].
  - apply H23, H2.
  - destruct (H23 _ _ H2) as [H3|(_ & old' & extra' & [= <-] & H3)].
    + right. eauto 6.
    + right. split; [reflexivity|]. exists old, (extra ++ extra').
      rewrite <- append_assoc. auto.
Qed.

Lemma grows_keeps fs fs' : grows fs fs' -> keeps log fs fs'.
Proof. intros Hg q n Hq. left. eauto using grows_lookup. Qed.

Lemma write_file_keeps fs p c : keeps log fs (_write_file fs p c).2.
Proof. intros q n Hq. left. by apply write_file_grows_or_creates. Qed.

Lemma append_keeps fs line : keeps log fs (append fs log line).
Proof.
  intros q n Hq. unfold append.
  destruct (fs !! log) as [[old|]|] eqn:E; try by left.
  destruct (decide (q = log)) as [->|Hne].
  - right. split; [reflexivity|]. exists old, line.
    rewrite lookup_insert_eq. split; congruence.
  - left. by rewrite lookup_insert_ne.
Qed.

End Keeping.

Section KeepingRuns.

Variable csv_rows : string -> option (list row).
Variable destination_path : path.
Variable default_password : string.

Local Abbreviation run :=
  (extract_from csv_rows destination_path default_password).
Local Abbreviation script := (script_logs_path destination_path).

Lemma write_member_keeps archive_name fs filename p c :
  keeps script fs (write_member destination_path archive_name fs filename p c).
Proof.
  unfold write_member. pose proof (write_file_keeps script fs p c) as Hk.
  destruct (_write_file fs p c) as [[|] fs']; simpl in *; [exact Hk|].
  eapply keeps_trans; [exact Hk | apply append_keeps].
Qed.

Lemma open_script_log_keeps fs :
  keeps script fs (open_script_log destination_path fs).1.
Proof.
  unfold open_script_log.
  pose proof (Path_mkdir_grows fs (parent script)) as Hg.
  destruct (Path_mkdir fs _) as [fs1|fs1]; simpl; [|by apply grows_keeps].
  unfold open_a. destruct (stat fs1 _) as [[c|]|] eqn:Hs; simpl;
    try (by apply grows_keeps).
  destruct (is_dir fs1 _); simpl; [|by apply grows_keeps].
  apply stat_None in Hs as [_ Hn].
  eapply keeps_trans; [by apply grows_keeps|].
  intros q n Hq. left. rewrite lookup_insert_ne; [exact Hq | congruence].
Qed.

Local Abbreviation run_keeps :=
  (run_keeps csv_rows destination_path default_password).

Lemma member_step_keeps getthis_mapping archive_name fs (m : string * blob) :
  run_keeps m.2 ->
  keeps script fs
    (member_step destination_path run getthis_mapping archive_name fs m).1.
Proof.
  intros Hm. unfold member_step.
  destruct (classify _ _ _ _) as [final_path|]; simpl.
  - apply write_member_keeps.
  - specialize (Hm m.1 fs).
    destruct (run m.2 m.1 false fs) as [fs0 [r|e]]; exact Hm.
Qed.

Lemma members_loop_keeps getthis_mapping archive_name
    (files : list (string * blob)) :
  Forall (fun m => run_keeps m.2) files ->
  forall fs,
    keeps script fs
      (for_each (member_step destination_path run getthis_mapping archive_name)
                fs files).1.
Proof.
  induction 1 as [|m files Hm _ IH]; intros fs; simpl; [apply keeps_refl|].
  pose proof (member_step_keeps getthis_mapping archive_name fs m Hm) as Hs.
  destruct (member_step _ _ _ _ fs m) as [fs1 [[]|e]]; simpl in *; [|exact Hs].
  eapply keeps_trans; [exact Hs | apply IH].
Qed.

Lemma run_keeps_all (b : blob) : run_keeps b.
Proof.
  induction b as [data open_plain open_with H1 H2] using blob_nested_ind.
  intros archive_name fs. rewrite extract_from_unfold.
  destruct (open_archive default_password (Blob data open_plain open_with))
    as [[files|]|e] eqn:Hopen; try apply keeps_refl.
  pose proof (open_archive_members default_password _ _ _ _ _ H1 H2 Hopen) as Hall.
  unfold extract_members.
  pose proof (open_script_log_keeps fs) as Hk0.
  destruct (open_script_log destination_path fs) as [fs1 [[]|e]]; simpl in *;
    [|exact Hk0].
  destruct (manifest_of csv_rows files) as [mapping|e]; [|exact Hk0].
  pose proof (members_loop_keeps mapping archive_name files Hall fs1) as Hk1.
  destruct (for_each _ fs1 files) as [fs2 [[]|e]]; simpl in *;
    eapply keeps_trans; eassumption.
Qed.

End KeepingRuns.

Lemma parent_app_last (d : path) (x : string) :
  is_root x = false -> parent (d ++ [x])%list = d.
Proof.
  intros Hx. destruct d as [|a d].
  - simpl. by rewrite Hx.
  - assert (E : parent ((a :: d) ++ [x])%list
                = removelast ((a :: d) ++ [x])%list) by (destruct d; reflexivity).
    rewrite E. apply removelast_last.
Qed.

Section KeepingTheorems.

Variable csv_rows : string -> option (list row).
Variable destination_path : path.
Variable default_password : string.

Local Abbreviation run :=
  (extract_from csv_rows destination_path default_password).
Local Abbreviation extract' :=
  (extract csv_rows destination_path default_password).
Local Abbreviation script := (script_logs_path destination_path).


(** X2. When [extract] returns [True] without renaming the volumes, the
    destination is a directory and [non_extracted.log] is a file in it,
    also when no write failed. *)
Theorem extract_leaves_a_log
    (archive_path : source) (archive_name : string) (fs : tree)
    (Hret : (extract' archive_path false archive_name fs).2 = Ret true) :
  is_file (extract' archive_path false archive_name fs).1 script = true
  /\ is_dir (extract' archive_path false archive_name fs).1
       destination_path = true.
Proof.
  unfold extract in *. rewrite extract_from_unfold in *.
  destruct (open_archive default_password (blob_of archive_path))
    as [[files|]|e]; try discriminate.
  unfold extract_members in *.
  destruct (open_script_log destination_path fs) as [fs1 [[]|e]] eqn:Hlog;
    [|discriminate].
  destruct (manifest_of csv_rows files) as [mapping|e]; [|discriminate].
  destruct (for_each _ fs1 files) as [fs2 [[]|e]] eqn:Hloop; [|discriminate].
  simpl in *.
  assert (Hp : persists fs1 fs2).
  { eapply (members_loop_grows csv_rows destination_path default_password
              mapping _ files); [|exact Hloop].
    apply Forall_forall. intros m _. apply run_grows_all. }
  pose proof (open_script_log_opened _ _ _ Hlog) as Hf.
  split; [by apply (persists_is_file fs1)|].
  apply (persists_is_dir fs1); [exact Hp|].
  unfold open_script_log in Hlog.
  destruct (Path_mkdir fs (parent script)) as [fs0|fs0] eqn:Hm; [|discriminate].
  apply mkdir_parents_inl_is_dir in Hm.
  assert (Hpar : parent script = destination_path).
  { rewrite script_logs_path_snoc. by apply parent_app_last. }
  rewrite Hpar in Hm.
  unfold open_a in Hlog. destruct (stat fs0 script) as [[c|]|] eqn:Hs.
  - by injection Hlog as <-.
  - discriminate.
  - destruct (is_dir fs0 (parent script)); [|discriminate].
    injection Hlog as <-. apply stat_None in Hs as [Hb Hn].
    unfold is_dir, stat in *. destruct (is_base destination_path); [reflexivity|].
    rewrite lookup_insert_ne; [exact Hm|].
    rewrite script_logs_path_snoc. intros E.
    apply (f_equal length) in E. rewrite length_app in E. simpl in E. lia.
Qed.

End KeepingTheorems.


Lemma extract_leaves_a_log_witness :
  is_file (extract simple_csv out "" (SrcPath ["evidence.7z"] scenario) false
             "" ∅).1 ["out"; "non_extracted.log"] = true.
Proof.
  refine (proj1 (extract_leaves_a_log simple_csv out ""
                   (SrcPath ["evidence.7z"] scenario) "" ∅ _)).
  vm_compute. reflexivity.
Defined.

(** ** When [_write_file] writes *)



(** ** More on the manifest *)

Section MoreManifest.

Lemma parse_getthis_row_missing (result : gmap string path) (r : row) :
  row_entry r = None -> parse_getthis_row result r = Raise KeyError.
Proof.
  unfold row_entry, parse_getthis_row, getitem.
  destruct (r !! "SampleName"), (r !! "VolumeID"), (r !! "SnapshotID"),
    (r !! "FullName"); try discriminate; reflexivity.
Qed.

Lemma parse_getthis_row_cases (result : gmap string path) (r : row) :
  (exists k d, row_entry r = Some (k, d)
               /\ parse_getthis_row result r = Ret (<[k := d]> result))
  \/ (row_entry r = None /\ parse_getthis_row result r = Raise KeyError).
Proof.
  destruct (row_entry r) as [[k d]|] eqn:E.
  - left. exists k, d. split; [reflexivity|]. by apply parse_getthis_row_entry.
  - right. split; [reflexivity|]. by apply parse_getthis_row_missing.
Qed.

Lemma parse_getthis_rows_missing (rows : list row) :
  Exists (fun r => row_entry r = None) rows ->
  forall init, parse_getthis_rows init rows = Raise KeyError.
Proof.
  induction rows as [|r rows IH]; intros Hex init; [by inversion Hex|].
  simpl. destruct (parse_getthis_row_cases init r)
    as [(k & d & Hr & ->)|[Hr ->]]; [|reflexivity].
  simpl. apply IH. inversion Hex as [? ? Hbad|]; [congruence | assumption].
Qed.

Lemma parse_getthis_rows_keys (rows : list row) :
  forall init m, parse_getthis_rows init rows = Ret m ->
  forall k, is_Some (m !! k)
            <-> is_Some (init !! k) \/ exists r, r ∈ rows /\ row_key r = Some k.
Proof.
  induction rows as [|r rows IH]; intros init m; simpl.
  - intros [= <-] k. split; [auto|]. intros [H|(r & Hr & _)]; [exact H|].
    by apply elem_of_nil in Hr.
  - destruct (parse_getthis_row_cases init r)
      as [(k0 & d & Hr & ->)|[Hr ->]]; [|discriminate].
    simpl. intros Hm k. rewrite (IH _ _ Hm k).
    assert (Hkey : row_key r = Some k0) by (unfold row_key; by rewrite Hr).
    split.
    + intros [H|(r' & Hin & Hk)].
      * destruct (decide (k0 = k)) as [<-|Hne].
        -- right. exists r. split; [left | exact Hkey].
        -- left. by rewrite lookup_insert_ne in H.
      * right. exists r'. split; [by right | exact Hk].
    + intros [H|(r' & Hin & Hk)].
      * left. destruct (decide (k0 = k)) as [<-|Hne].
        -- rewrite lookup_insert_eq. eauto.
        -- by rewrite lookup_insert_ne.
      * apply elem_of_cons in Hin as [->|Hin].
        -- left. rewrite Hkey in Hk. injection Hk as <-.
           rewrite lookup_insert_eq. eauto.
        -- right. eauto.
Qed.

Lemma translate_no_char (a b : ascii) (s : string) :
  a <> b -> contains a (PyStr.translate a b s) = false.
Proof.
  intros Hab. induction s as [|c t IH]; [reflexivity|].
  simpl. rewrite IH, orb_false_r.
  destruct (Ascii.eqb_spec a c) as [<-|Hne].
  - apply Ascii.eqb_neq. congruence.
  - apply Ascii.eqb_neq. congruence.
Qed.

Lemma row_key_no_backslash (r : row) (k : string) :
  row_key r = Some k -> contains "\" k = false.
Proof.
  unfold row_key, row_entry.
  destruct (r !! "SampleName"), (r !! "VolumeID"), (r !! "SnapshotID"),
    (r !! "FullName"); try discriminate.
  rewrite !replace_char. intros [= <-]. by apply translate_no_char.
Qed.

End MoreManifest.

(** X4. The keys of the mapping that [_parse_getthis] returns are the sample
    names of the rows, every backslash turned into a slash: no more, no
    less. *)
Theorem manifest_keys
    (csv_rows : string -> option (list row)) (getthis_content : string)
    (rows : list row) (m : gmap string path)
    (Hread : csv_rows getthis_content = Some rows)
    (Hm : _parse_getthis csv_rows getthis_content = Ret m) :
  forall k, is_Some (m !! k) <-> exists r, r ∈ rows /\ row_key r = Some k.
Proof.
  unfold _parse_getthis in Hm. rewrite Hread in Hm. intros k.
  rewrite (parse_getthis_rows_keys _ _ _ Hm k). rewrite lookup_empty.
  split; [intros [[? H]|H]; [discriminate | exact H] | auto].
Qed.


Section BadManifest.

Variable csv_rows : string -> option (list row).
Variable destination_path : path.
Variable default_password : string.


End BadManifest.

Lemma manifest_keys_witness :
  is_Some (({[ "s" := ["V2 (vss {1})"; "b"; "c"] ]} : gmap string path) !! "s").
Proof.
  apply (manifest_keys simple_csv duplicate_text duplicate_rows _ eq_refl
           eq_refl).
  exists (List.nth 1 duplicate_rows ∅). split; [right; left | reflexivity].
Defined.



(** ** More on the Volume Renamer *)

Lemma for_each_skip {X : Type} (body : tree -> X -> tree * outcome unit)
    (fs : tree) (xs : list X) :
  Forall (fun x => body fs x = (fs, Ret tt)) xs ->
  for_each body fs xs = (fs, Ret tt).
Proof.
  induction 1 as [|x xs Hx _ IH]; simpl; [reflexivity|]. by rewrite Hx.
Qed.

Lemma rename_row_no_mount (destination_path : path) (fs : tree) (r : row) :
  no_mount r -> rename_row destination_path fs r = (fs, Ret tt).
Proof. unfold rename_row. intros [-> | ->]; reflexivity. Qed.

(** X7. [_rename_volumes] renames nothing and raises nothing when the
    destination holds no [volstats.csv], and when no row of the statistics
    it holds has a mount point; such a row may even lack its [VolumeID]. *)
Theorem no_mount_point_no_rename
    (csv_rows : string -> option (list row)) (destination_path : path)
    (fs : tree)
    (Hrows : Forall
               (fun f => exists text rows,
                  fs !! f = Some (File text)
                  /\ csv_rows text = Some rows
                  /\ Forall no_mount rows)
               (glob_recursive fs destination_path "volstats.csv")) :
  _rename_volumes csv_rows destination_path fs = (fs, Ret tt)
  /\ finish csv_rows destination_path true fs = (fs, Ret true).
Proof.
  assert (H : _rename_volumes csv_rows destination_path fs = (fs, Ret tt)).
  { unfold _rename_volumes. apply for_each_skip.
    eapply Forall_impl; [exact Hrows|].
    intros f (text & rows & Hf & Hr & Hno). unfold rename_file.
    rewrite Hf, Hr. apply for_each_skip.
    eapply Forall_impl; [exact Hno|]. intros r. apply rename_row_no_mount. }
  split; [exact H|]. unfold finish. by rewrite H.
Qed.

Lemma startswith_app (a b : string) : PyStr.startswith a (a ++ b) = true.
Proof.
  induction a as [|c a IH]; [reflexivity|].
  rewrite append_cons. simpl. by rewrite Ascii.eqb_refl.
Qed.

Lemma is_prefix_app (p q : path) : is_prefix p (p ++ q)%list = true.
Proof.
  induction p as [|a p IH]; [reflexivity|]. simpl. by rewrite String.eqb_refl.
Qed.



Lemma no_mount_point_no_rename_witness :
  _rename_volumes simple_csv out unmounted_tree = (unmounted_tree, Ret tt).
Proof.
  apply (no_mount_point_no_rename simple_csv out unmounted_tree).
  replace (glob_recursive unmounted_tree out "volstats.csv")
    with [["out"; "volstats.csv"]] by (vm_compute; reflexivity).
  constructor; [|constructor].
  exists unmounted_text,
    [<["VolumeID" := "V1"]> (<["MountPoint" := ""]> ∅)].
  split; [reflexivity|]. split; [reflexivity|].
  constructor; [|constructor]. right. reflexivity.
Defined.

(** ** More on the members loop *)

Section MoreMembers.

Variable csv_rows : string -> option (list row).
Variable destination_path : path.
Variable default_password : string.

Local Abbreviation run :=
  (extract_from csv_rows destination_path default_password).
Local Abbreviation script := (script_logs_path destination_path).

(** X9. A member named [*.7z] that is no key of the manifest and is no
    valid container leaves no trace: nothing is written, no line is added to
    [non_extracted.log], and the loop goes on from the same tree.  When the
    extraction of such a member raises instead, the loop of the outer
    archive stops there with the same exception. *)
Theorem invalid_nested_leaves_no_trace
    (getthis_mapping : gmap string path) (archive_name filename : string)
    (b : blob) (rest : list (string * blob)) (fs : tree)
    (Hext : PyStr.endswith ".7z" filename = true)
    (Hkey : getthis_mapping !! filename = None) :
  (open_archive default_password b = Ret None ->
     for_each (member_step destination_path run getthis_mapping archive_name)
              fs ((filename, b) :: rest)
     = for_each (member_step destination_path run getthis_mapping archive_name)
                fs rest)
  /\ (forall fs' e,
        run b filename false fs = (fs', Raise e) ->
        for_each (member_step destination_path run getthis_mapping
                    archive_name) fs ((filename, b) :: rest)
        = (fs', Raise e)).
Proof.
  assert (Hc : classify getthis_mapping destination_path archive_name filename
               = Nested).
  { apply classify_nested; auto using endswith_7z_not_log,
      endswith_7z_not_well_known. }
  split.
  - intros Hbad. simpl. rewrite (member_step_nested _ _ _ _ _ _ _ Hc).
    rewrite extract_from_unfold, Hbad. reflexivity.
  - intros fs' e Hr. simpl. rewrite (member_step_nested _ _ _ _ _ _ _ Hc).
    rewrite Hr. reflexivity.
Qed.


End MoreMembers.

Lemma invalid_nested_leaves_no_trace_witness :
  for_each (member_step out (extract_from simple_csv out "") ∅ "evidence.7z")
           taken_tree [("bad.7z", plain "junk")]
  = (taken_tree, Ret tt).
Proof.
  exact (proj1 (invalid_nested_leaves_no_trace simple_csv out "" ∅
                  "evidence.7z" "bad.7z" (plain "junk") [] taken_tree
                  eq_refl eq_refl) eq_refl).
Defined.


(** ** Where the destinations are *)

Section Destinations.

Lemma contains_rev_app (c : ascii) (s1 s2 : string) :
  contains c (String.rev_app s1 s2) = contains c s1 || contains c s2.
Proof.
  revert s2. induction s1 as [|a s1 IH]; intros s2; [reflexivity|].
  simpl. rewrite IH. simpl. destruct (Ascii.eqb a c), (contains c s1); reflexivity.
Qed.

Lemma contains_rev (c : ascii) (s : string) :
  contains c (String.rev s) = contains c s.
Proof. unfold String.rev. rewrite contains_rev_app. simpl. apply orb_false_r. Qed.

(** The fields of a split hold no separator. *)
Lemma split_from_no_sep (sep : ascii) (s : string) : forall cur c,
  contains sep cur = false ->
  c ∈ PyStr.split_from sep cur s -> contains sep c = false.
Proof.
  induction s as [|a s IH]; intros cur c Hcur; simpl.
  - intros ->%list_elem_of_singleton. by rewrite contains_rev.
  - destruct (Ascii.eqb a sep) eqn:E.
    + intros [->|Hin]%elem_of_cons; [by rewrite contains_rev|].
      by apply (IH "").
    + apply IH. simpl. by rewrite E.
Qed.

Lemma is_root_contains (c : string) : is_root c = true -> contains "/" c = true.
Proof.
  unfold is_root. intros [H|H]%orb_prop; apply String.eqb_eq in H; by subst.
Qed.

Lemma startswith_cons (c a : ascii) (p s : string) :
  PyStr.startswith (String c p) (String a s)
  = if Ascii.eqb c a then PyStr.startswith p s else false.
Proof. reflexivity. Qed.

Lemma startswith_slash (s : string) :
  PyStr.startswith "/" s = false -> root_of s = None.
Proof.
  intros H. unfold root_of. destruct s as [|a s]; [reflexivity|].
  rewrite !startswith_cons in *.
  destruct (Ascii.eqb "/" a); [discriminate | reflexivity].
Qed.

Lemma parse_relative (s : string) :
  PyStr.startswith "/" s = false -> is_absolute (parse s) = false.
Proof.
  intros Hs. unfold parse. rewrite (startswith_slash s Hs).
  destruct (filter _ (PyStr.split "/" s)) as [|c comps] eqn:E; [reflexivity|].
  simpl. destruct (is_root c) eqn:Hr; [|reflexivity].
  apply is_root_contains in Hr.
  assert (Hin : c ∈ filter (fun c => Is_true (keep_component c))
                  (PyStr.split "/" s)) by (rewrite E; left).
  apply list_elem_of_filter in Hin as [_ Hin].
  apply (split_from_no_sep "/" s "" c) in Hin; [congruence | reflexivity].
Qed.

Lemma parse_absolute (s : string) :
  PyStr.startswith "/" s = true -> is_absolute (parse s) = true.
Proof.
  intros Hs. unfold parse, root_of. rewrite Hs.
  destruct (PyStr.startswith "///" s); [reflexivity|].
  destruct (PyStr.startswith "//" s); reflexivity.
Qed.

Lemma join_relative (p q : path) :
  is_absolute q = false -> join p q = (p ++ q)%list.
Proof. unfold join. intros ->. reflexivity. Qed.

Lemma startswith_append_l (a b : string) :
  a <> "" -> PyStr.startswith "/" (a ++ b) = PyStr.startswith "/" a.
Proof. destruct a as [|c a]; [congruence|]. intros _. reflexivity. Qed.

Lemma startswith_take (n : nat) (s : string) :
  PyStr.startswith "/" s = false -> PyStr.startswith "/" (PyStr.take n s) = false.
Proof.
  destruct n, s; try reflexivity. simpl PyStr.take.
  rewrite !startswith_cons. auto.
Qed.

End Destinations.



(** ** The name of a renamed folder *)

Section RenamedName.

Implicit Types (old new a rest s : string).

Lemma replace_from_skip old new a rest :
  PyStr.replace_from old new (String.length a) (a ++ rest)
  = PyStr.replace_from old new 0 rest.
Proof.
  induction a as [|c a IH]; [by destruct rest|].
  rewrite append_cons. simpl. exact IH.
Qed.

Lemma replace_from_prefix old new rest :
  old <> "" ->
  PyStr.replace_from old new 0 (old ++ rest)
  = new ++ PyStr.replace_from old new 0 rest.
Proof.
  destruct old as [|c o]; [congruence|]. intros _.
  rewrite append_cons. cbn [PyStr.replace_from].
  rewrite <- append_cons, startswith_app.
  f_equal.
  replace (String.length (String c o) - 1) with (String.length o)
    by (simpl; lia).
  apply replace_from_skip.
Qed.

Lemma replace_from_absent old new s :
  occurs old s = false -> PyStr.replace_from old new 0 s = s.
Proof.
  induction s as [|c s IH]; [reflexivity|].
  cbn [occurs PyStr.replace_from]. intros [Hs Ho]%orb_false_elim.
  rewrite Hs. f_equal. by apply IH.
Qed.

Lemma replace_prefix old new rest :
  old <> "" ->
  PyStr.replace old new (old ++ rest) = new ++ PyStr.replace old new rest.
Proof.
  intros Hne. unfold PyStr.replace. destruct old as [|c o] eqn:E; [congruence|].
  by apply replace_from_prefix.
Qed.

Lemma replace_absent old new s :
  old <> "" -> occurs old s = false -> PyStr.replace old new s = s.
Proof.
  intros Hne. unfold PyStr.replace. destruct old as [|c o] eqn:E; [congruence|].
  apply replace_from_absent.
Qed.

End RenamedName.



(** ** A folder that is renamed moves with what it holds *)

Section Moving.

Implicit Types (fs : tree) (p q k src dst : path).

Lemma is_prefix_spec p q : is_prefix p q = true <-> p `prefix_of` q.
Proof.
  revert q. induction p as [|a p IH]; intros q; simpl.
  - split; [intros _; apply prefix_nil | reflexivity].
  - destruct q as [|b q]; [split; [discriminate | by intros ?%prefix_nil_not]|].
    destruct (String.eqb_spec a b) as [->|Hne].
    + rewrite IH. split; [by apply prefix_cons | by intros ?%prefix_cons_inv_2].
    + split; [discriminate | by intros ?%prefix_cons_inv_1].
Qed.

Lemma is_prefix_false p q : is_prefix p q = false <-> ~ p `prefix_of` q.
Proof.
  rewrite <- is_prefix_spec. destruct (is_prefix p q); split; auto; congruence.
Qed.

Lemma rekey_moved src dst (kv : path * node) :
  rekey src dst kv = (moved src dst kv.1, kv.2).
Proof. unfold rekey, moved. destruct kv as [k v]. simpl. by destruct (is_prefix src k). Qed.

Lemma moved_under src dst rest : moved src dst (src ++ rest) = (dst ++ rest)%list.
Proof. unfold moved. by rewrite is_prefix_app, drop_app_length. Qed.

Lemma moved_other src dst k : ~ src `prefix_of` k -> moved src dst k = k.
Proof. unfold moved. intros H%is_prefix_false. by rewrite H. Qed.

Variables (fs : tree) (src dst : path).
Hypothesis dst_free : forall k, dst `prefix_of` k -> fs !! k = None.
Hypothesis apart : ~ src `prefix_of` dst.

Lemma moved_inj k1 k2 :
  is_Some (fs !! k1) -> is_Some (fs !! k2) ->
  moved src dst k1 = moved src dst k2 -> k1 = k2.
Proof.
  intros [v1 H1] [v2 H2]. unfold moved.
  destruct (is_prefix src k1) eqn:E1, (is_prefix src k2) eqn:E2.
  - apply is_prefix_spec in E1 as [r1 ->], E2 as [r2 ->].
    rewrite !drop_app_length. by intros ->%app_inv_head.
  - intros E. rewrite dst_free in H2; [discriminate|]. rewrite <- E. by eexists.
  - intros E. rewrite dst_free in H1; [discriminate|]. rewrite E. by eexists.
  - auto.
Qed.

Lemma move_subtree_lookup k' v :
  move_subtree fs src dst !! k' = Some v
  <-> exists k, fs !! k = Some v /\ moved src dst k = k'.
Proof.
  unfold move_subtree. rewrite delete_id by (by apply dst_free).
  rewrite <- elem_of_list_to_map.
  - rewrite list_elem_of_fmap. split.
    + intros ([k v0] & E & Hin). rewrite rekey_moved in E. simpl in E.
      injection E as -> ->. apply elem_of_map_to_list in Hin. eauto.
    + intros (k & Hk & <-). exists (k, v). rewrite rekey_moved.
      split; [reflexivity | by apply elem_of_map_to_list].
  - assert (Hkeys : (rekey src dst <$> map_to_list fs).*1
                    = moved src dst <$> (map_to_list fs).*1).
    { induction (map_to_list fs) as [|kv l IH]; [reflexivity|].
      rewrite !fmap_cons, rekey_moved, IH. reflexivity. }
    rewrite Hkeys. apply NoDup_fmap_2_strong.
    + intros k1 k2 Hk1 Hk2. apply moved_inj.
      * apply list_elem_of_fmap in Hk1 as ([? v1] & -> & Hin).
        apply elem_of_map_to_list in Hin. eauto.
      * apply list_elem_of_fmap in Hk2 as ([? v2] & -> & Hin).
        apply elem_of_map_to_list in Hin. eauto.
    + apply NoDup_fst_map_to_list.
Qed.

Lemma move_subtree_moved rest :
  move_subtree fs src dst !! (dst ++ rest)%list = fs !! (src ++ rest)%list.
Proof.
  apply option_eq. intros v. rewrite move_subtree_lookup. split.
  - intros (k & Hk & E). unfold moved in E.
    destruct (is_prefix src k) eqn:Ep.
    + apply is_prefix_spec in Ep as [r ->]. rewrite drop_app_length in E.
      by apply app_inv_head in E as ->.
    + rewrite dst_free in Hk; [discriminate|]. rewrite E. by eexists.
  - intros H. exists (src ++ rest)%list. split; [exact H | apply moved_under].
Qed.

Lemma move_subtree_source rest :
  is_Some (fs !! src) ->
  move_subtree fs src dst !! (src ++ rest)%list = None.
Proof.
  intros [n Hn].
  destruct (move_subtree fs src dst !! (src ++ rest)%list) as [v|] eqn:E;
    [|reflexivity].
  exfalso. apply move_subtree_lookup in E as (k & Hk & E). unfold moved in E.
  destruct (is_prefix src k) eqn:Ep.
  - destruct (prefix_weak_total src dst (src ++ rest)%list) as [H|H].
    + by eexists.
    + rewrite <- E. by eexists.
    + contradiction.
    + rewrite dst_free in Hn; [discriminate | exact H].
  - apply is_prefix_false in Ep. apply Ep. rewrite E. by eexists.
Qed.

Lemma move_subtree_elsewhere k :
  ~ src `prefix_of` k -> ~ dst `prefix_of` k ->
  move_subtree fs src dst !! k = fs !! k.
Proof.
  intros Hs Hd. apply option_eq. intros v. rewrite move_subtree_lookup. split.
  - intros (k0 & Hk & E). unfold moved in E.
    destruct (is_prefix src k0) eqn:Ep.
    + exfalso. apply Hd. rewrite <- E. by eexists.
    + by subst.
  - intros H. exists k. split; [exact H | by apply moved_other].
Qed.

End Moving.

Lemma is_base_snoc (d : path) (x : string) :
  is_root x = false -> is_base (d ++ [x])%list = false.
Proof. intros Hx. destruct d as [|a [|b d]]; simpl; auto. Qed.

Lemma name_snoc (d : path) (x : string) :
  is_root x = false -> name (d ++ [x])%list = x.
Proof.
  intros Hx. destruct d as [|a d]; [simpl; by rewrite Hx|].
  assert (E : name ((a :: d) ++ [x])%list = List.last ((a :: d) ++ [x])%list "")
    by (destruct d; reflexivity).
  rewrite E. apply last_last.
Qed.

(** X13. One [dir.rename] of the renamer (lines 67 to 71): when the new
    name of the folder is a plain name that differs from the old one, the
    destination is a directory and nothing stands at the new name, the
    rename succeeds; everything the folder held is then found under the new
    name, nothing is left under the old one, and the rest of the tree is
    untouched. *)
Theorem rename_dir_moves_folder
    (volume_id mount0 folder : string) (destination_path : path)
    (fs : tree) (n : node)
    (Hentry : fs !! (destination_path ++ [folder])%list = Some n)
    (Hfolder : is_root folder = false)
    (Hparent : is_dir fs destination_path = true)
    (Hplain : parse (PyStr.replace volume_id mount0 folder)
              = [PyStr.replace volume_id mount0 folder])
    (Hnew : is_root (PyStr.replace volume_id mount0 folder) = false)
    (Hdiff : PyStr.replace volume_id mount0 folder <> folder)
    (Hfree : forall k,
        (destination_path ++ [PyStr.replace volume_id mount0 folder])%list
          `prefix_of` k -> fs !! k = None) :
  exists fs',
    rename_dir volume_id mount0 fs (destination_path ++ [folder])%list
    = (fs', Ret tt)
    /\ (forall rest,
          fs' !! (destination_path
                    ++ PyStr.replace volume_id mount0 folder :: rest)%list
          = fs !! (destination_path ++ folder :: rest)%list)
    /\ (forall rest, fs' !! (destination_path ++ folder :: rest)%list = None)
    /\ (forall k,
          ~ (destination_path ++ [folder])%list `prefix_of` k ->
          ~ (destination_path
               ++ [PyStr.replace volume_id mount0 folder])%list `prefix_of` k ->
          fs' !! k = fs !! k).
Proof.
  set (new := PyStr.replace volume_id mount0 folder) in *.
  set (src := (destination_path ++ [folder])%list) in *.
  set (dst := (destination_path ++ [new])%list).
  assert (Hapart : ~ src `prefix_of` dst).
  { intros H. apply prefix_app_inv in H. destruct H as [k Hk].
    injection Hk as Hk _. congruence. }
  assert (Hrename : os_rename fs src dst = inl (move_subtree fs src dst)).
  { unfold os_rename. subst src dst.
    rewrite !is_base_snoc by assumption. simpl. rewrite Hentry.
    destruct (decide (_ = _)) as [E|_].
    { apply app_inv_head in E. injection E as E. congruence. }
    rewrite (parent_app_last _ _ Hnew), Hparent. simpl.
    rewrite (proj2 (is_prefix_false _ _) Hapart).
    rewrite (Hfree (destination_path ++ [new])%list) by reflexivity.
    by destruct n. }
  exists (move_subtree fs src dst). split.
  { unfold rename_dir. subst src.
    rewrite (name_snoc _ _ Hfolder), (parent_app_last _ _ Hfolder).
    fold new. unfold joinpath. rewrite Hplain.
    unfold join. simpl is_absolute. rewrite Hnew.
    fold dst. fold (destination_path ++ [folder])%list.
    change (destination_path ++ [folder])%list with (destination_path ++ [folder])%list.
    rewrite Hrename. reflexivity. }
  split; [|split].
  - intros rest.
    change (destination_path ++ new :: rest)%list
      with (destination_path ++ [new] ++ rest)%list.
    change (destination_path ++ folder :: rest)%list
      with (destination_path ++ [folder] ++ rest)%list.
    rewrite !app_assoc. by apply move_subtree_moved.
  - intros rest.
    change (destination_path ++ folder :: rest)%list
      with (destination_path ++ [folder] ++ rest)%list.
    rewrite app_assoc. apply move_subtree_source; [exact Hfree | exact Hapart | eauto].
  - intros k Hs Hd. by apply move_subtree_elsewhere.
Qed.


(** Nothing stands at or below [dst], by inspection of the entries. *)
Lemma free_by_inspection (fs : tree) (dst : path) :
  forallb (fun kv : path * node => negb (is_prefix dst kv.1)) (map_to_list fs)
  = true ->
  forall k, dst `prefix_of` k -> fs !! k = None.
Proof.
  intros Hall k Hk. destruct (fs !! k) as [v|] eqn:E; [|reflexivity].
  exfalso. apply elem_of_map_to_list, list_elem_of_In in E.
  rewrite forallb_forall in Hall. specialize (Hall _ E). simpl in Hall.
  apply is_prefix_spec in Hk. rewrite Hk in Hall. discriminate.
Qed.

Lemma rename_dir_moves_folder_witness :
  exists fs',
    rename_dir "V1" "C" rename_tree ["out"; "V1"] = (fs', Ret tt)
    /\ fs' !! ["out"; "C"; "a"] = Some (File "1").
Proof.
  destruct (rename_dir_moves_folder "V1" "C" "V1" out rename_tree Dir)
    as (fs' & Hr & Hmoved & _).
  - reflexivity.
  - reflexivity.
  - reflexivity.
  - reflexivity.
  - reflexivity.
  - vm_compute. discriminate.
  - apply free_by_inspection. vm_compute. reflexivity.
  - exists fs'. split; [exact Hr|]. exact (Hmoved ["a"]).
Defined.

(** ** More errors that leave [extract] *)

(** X14. A row of [volstats.csv] with a mount point and no [VolumeID]
    raises [KeyError]: the rows before it that have no mount point are
    passed over, the rows and the files after it are not read, and the tree
    is untouched. *)
Theorem statistics_row_without_volume
    (csv_rows : string -> option (list row)) (destination_path : path)
    (fs : tree) (volstats_file : path) (files : list path) (text : string)
    (before : list row) (r : row) (after : list row) (c : ascii) (t : string)
    (Hfile : fs !! volstats_file = Some (File text))
    (Hread : csv_rows text = Some (before ++ r :: after)%list)
    (Hbefore : Forall no_mount before)
    (Hmount : r !! "MountPoint" = Some (String c t))
    (Hvolume : r !! "VolumeID" = None) :
  rename_file csv_rows destination_path fs volstats_file = (fs, Raise KeyError)
  /\ for_each (rename_file csv_rows destination_path) fs
       (volstats_file :: files) = (fs, Raise KeyError).
Proof.
  assert (H : rename_file csv_rows destination_path fs volstats_file
              = (fs, Raise KeyError)).
  { unfold rename_file. rewrite Hfile, Hread.
    apply (for_each_raise _ before r after fs fs fs).
    - apply for_each_skip. eapply Forall_impl; [exact Hbefore|].
      intros r' Hr'. by apply rename_row_no_mount.
    - unfold rename_row, getitem. rewrite Hmount, Hvolume. reflexivity. }
  split; [exact H|]. simpl. rewrite H. reflexivity.
Qed.

Section LogCannotOpen.

Variable csv_rows : string -> option (list row).
Variable destination_path : path.
Variable default_password : string.

Local Abbreviation script := (script_logs_path destination_path).

Lemma open_script_log_grows (fs : tree) :
  (open_script_log destination_path fs).2 = Raise OSError ->
  grows fs (open_script_log destination_path fs).1.
Proof.
  unfold open_script_log.
  pose proof (Path_mkdir_grows fs (parent script)) as Hg.
  destruct (Path_mkdir fs _) as [fs1|fs1]; simpl; [|auto].
  destruct (open_a fs1 script); [discriminate | auto].
Qed.

(** X15. When [non_extracted.log] is a directory, or the destination is a
    file, the failure log cannot be opened: [extract] on a container that
    opens raises [OSError] before it looks at any member; no file is
    written and nothing is renamed. *)
Theorem unopenable_log_stops_extract
    (archive_path : source) (rename_volumes : bool) (archive_name : string)
    (fs : tree) (files : list (string * blob))
    (Hopen : open_archive default_password (blob_of archive_path)
             = Ret (Some files))
    (Hblocked : is_dir fs script = true
                \/ is_file fs destination_path = true) :
  let r := extract csv_rows destination_path default_password archive_path
             rename_volumes archive_name fs in
  r.2 = Raise OSError
  /\ grows fs r.1
  /\ forall q content, r.1 !! q = Some (File content) ->
       fs !! q = Some (File content).
Proof.
  intros r. subst r. unfold extract. rewrite extract_from_unfold, Hopen.
  unfold extract_members.
  assert (Hlog : (open_script_log destination_path fs).2 = Raise OSError).
  { unfold open_script_log.
    pose proof (Path_mkdir_grows fs (parent script)) as Hg.
    destruct Hblocked as [Hd|Hf].
    - destruct (Path_mkdir fs (parent script)) as [fs1|fs1]; [|reflexivity].
      unfold open_a. unfold is_dir in Hd.
      destruct (stat fs script) as [[c|]|] eqn:Hs; try discriminate.
      by rewrite (grows_stat _ _ _ _ Hg Hs).
    - rewrite script_logs_path_snoc, parent_app_last in * by reflexivity.
      unfold Path_mkdir in *.
      destruct (mkdir_parents _ fs destination_path) as [fs1|fs1] eqn:Hm;
        [|reflexivity].
      apply mkdir_parents_inl_is_dir in Hm.
      apply is_file_lookup in Hf as (Hb & c & Hc).
      destruct (Hg destination_path) as [E|[E _]]; [|congruence].
      unfold is_dir in Hm. rewrite (stat_not_base _ _ Hb), E, Hc in Hm.
      discriminate. }
  pose proof (open_script_log_grows fs Hlog) as Hg.
  destruct (open_script_log destination_path fs) as [fs1 [[]|e]];
    simpl in *; [discriminate|].
  injection Hlog as ->. split; [reflexivity|]. split; [exact Hg|].
  intros q content Hq. destruct (Hg q) as [E|[_ E]]; congruence.
Qed.


End LogCannotOpen.

Lemma statistics_row_without_volume_witness :
  rename_file simple_csv out novolume_tree ["out"; "volstats.csv"]
  = (novolume_tree, Raise KeyError).
Proof.
  exact (proj1 (statistics_row_without_volume simple_csv out novolume_tree
                  ["out"; "volstats.csv"] [] novolume_text []
                  {[ "MountPoint" := "C:" ]} [] "C" ":"
                  eq_refl eq_refl (List.Forall_nil _) eq_refl eq_refl)).
Defined.

Lemma unopenable_log_stops_extract_witness :
  (extract simple_csv out "" (SrcPath ["evidence.7z"] scenario) true ""
     logdir_tree).2 = Raise OSError.
Proof.
  apply (unopenable_log_stops_extract simple_csv out ""
           (SrcPath ["evidence.7z"] scenario) true "" logdir_tree
           [("GetThis.csv", plain getthis_text); ("sample1", plain "hello")]
           eq_refl).
  left. reflexivity.
Defined.

(** ** A write that fails *)


